(** * fn routes: the partial-update (patch) merge engine of [fn/routes.go]

    A shallow embedding of [patchRoute], [update] and [create] from
    [fn/routes.go], and the properties of the merge of config and header
    deltas, of the scalar-field overwrite rules and of the error paths.

    Conventions of the embedding:
    - a Go [map[string]V] that may be nil is an [option (gmap string V)];
    - a Go [*int64] is an [option Z]; a Go float64 is a binary64 number of
      the kernel ([PrimFloat]), so that float arithmetic rounds as in Go;
    - Go's [for k, v := range m] visits the entries of [m] in an order the
      language leaves unspecified: a loop is modelled over the list of
      entries in visiting order, and statements about a loop quantify over
      every list that is a permutation of the map's entries;
    - a run-time panic (index out of range, nil dereference) is the result
      [Panic];
    - the remote API client is a record of functions, and every request a
      function issues is recorded in a trace of [Call]s. *)

From Stdlib Require Import ZArith Ascii String.
From Stdlib Require Import Uint63 PrimFloat SpecFloat FloatOps.
From stdpp Require Import gmap strings list fin_maps.

Local Open Scope string_scope.

(** ** Results of Go functions that return [error] and may panic *)

Inductive Res (A : Type) : Type :=
  | Val (a : A)
  | Err (msg : string)
  | Panic.
Arguments Val {A} a.
Arguments Err {A} msg.
Arguments Panic {A}.

Definition bindRes {A B : Type} (x : Res A) (f : A → Res B) : Res B :=
  match x with
  | Val a => f a
  | Err msg => Err msg
  | Panic => Panic
  end.

(** ** Strings *)

Module GoString.

(** [string(k[0]) == "-"]: [None] when [k] is empty, where [k[0]] panics. *)
Definition firstIsDash (k : string) : option bool :=
  match k with
  | EmptyString => None
  | String c _ => Some (Ascii.eqb c ("-" : ascii))
  end.

(** [k[1:]] for a non-empty [k]. *)
Definition dropFirst (k : string) : string :=
  match k with
  | EmptyString => EmptyString
  | String _ rest => rest
  end.

(** [strings.Split(s, sep)] for a separator of one byte: the pieces of
    [s] between occurrences of [sep]; always at least one piece. *)
Fixpoint Split (s : string) (sep : ascii) : list string :=
  match s with
  | EmptyString => [EmptyString]
  | String c rest =>
      if Ascii.eqb c sep then EmptyString :: Split rest sep
      else match Split rest sep with
           | [] => [String c EmptyString]
           | p :: ps => String c p :: ps
           end
  end.

End GoString.

(** ** The route model ([models.Route] as the functions here use it) *)

Record Route : Type := mkRoute {
  Path : string;
  Image : string;
  Memory : Z;                                   (* int64 *)
  Type_ : string;                               (* the field [Type] *)
  Config : option (gmap string string);         (* map[string]string *)
  Headers : option (gmap string (list string)); (* map[string][]string *)
  Format : string;
  MaxConcurrency : Z;                           (* int32 *)
  Timeout : option Z                            (* *int64 *)
}.

(** Field updates, written out ([route.Field = v]). *)
Definition withPath (v : string) (r : Route) : Route :=
  mkRoute v (Image r) (Memory r) (Type_ r) (Config r) (Headers r)
    (Format r) (MaxConcurrency r) (Timeout r).
Definition withImage (v : string) (r : Route) : Route :=
  mkRoute (Path r) v (Memory r) (Type_ r) (Config r) (Headers r)
    (Format r) (MaxConcurrency r) (Timeout r).
Definition withMemory (v : Z) (r : Route) : Route :=
  mkRoute (Path r) (Image r) v (Type_ r) (Config r) (Headers r)
    (Format r) (MaxConcurrency r) (Timeout r).
Definition withType (v : string) (r : Route) : Route :=
  mkRoute (Path r) (Image r) (Memory r) v (Config r) (Headers r)
    (Format r) (MaxConcurrency r) (Timeout r).
Definition withConfig (v : option (gmap string string)) (r : Route) : Route :=
  mkRoute (Path r) (Image r) (Memory r) (Type_ r) v (Headers r)
    (Format r) (MaxConcurrency r) (Timeout r).
Definition withHeaders (v : option (gmap string (list string))) (r : Route)
  : Route :=
  mkRoute (Path r) (Image r) (Memory r) (Type_ r) (Config r) v
    (Format r) (MaxConcurrency r) (Timeout r).
Definition withFormat (v : string) (r : Route) : Route :=
  mkRoute (Path r) (Image r) (Memory r) (Type_ r) (Config r) (Headers r)
    v (MaxConcurrency r) (Timeout r).
Definition withMaxConcurrency (v : Z) (r : Route) : Route :=
  mkRoute (Path r) (Image r) (Memory r) (Type_ r) (Config r) (Headers r)
    (Format r) v (Timeout r).
Definition withTimeout (v : option Z) (r : Route) : Route :=
  mkRoute (Path r) (Image r) (Memory r) (Type_ r) (Config r) (Headers r)
    (Format r) (MaxConcurrency r) v.

(** ** Go maps that may be nil *)

Module GoMap.

(** [delete(m, k)]: no effect on a nil map. *)
Definition del {V : Type} (k : string) (m : option (gmap string V))
  : option (gmap string V) :=
  match m with
  | None => None
  | Some g => Some (delete k g)
  end.

(** [m[k] = v]: panics on a nil map. *)
Definition assign {V : Type} (k : string) (v : V)
    (m : option (gmap string V)) : Res (option (gmap string V)) :=
  match m with
  | None => Panic
  | Some g => Val (Some (<[k := v]> g))
  end.

End GoMap.

(** ** The merge loops of [patchRoute] *)

Module Merge.

(** Body of the loop over [r.Config] (lines 401-405): a key that starts
    with a dash deletes the key without the dash, any other key is set. *)
Definition configStep (cur : option (gmap string string))
    (kv : string * string) : Res (option (gmap string string)) :=
  match GoString.firstIsDash kv.1 with
  | None => Panic
  | Some true => Val (GoMap.del (GoString.dropFirst kv.1) cur)
  | Some false => GoMap.assign kv.1 kv.2 cur
  end.

(** Body of the loop over [r.Headers] (lines 410-414): a key that starts
    with a dash deletes that very key [k], any other key is set. *)
Definition headersStep (cur : option (gmap string (list string)))
    (kv : string * list string) : Res (option (gmap string (list string))) :=
  match GoString.firstIsDash kv.1 with
  | None => Panic
  | Some true => Val (GoMap.del kv.1 cur)
  | Some false => GoMap.assign kv.1 kv.2 cur
  end.

(** A [range] loop whose body may panic, over the entries in visiting
    order. *)
Fixpoint rangeLoop {K V M : Type} (step : M → K * V → Res M)
    (kvs : list (K * V)) (cur : M) : Res M :=
  match kvs with
  | [] => Val cur
  | kv :: rest =>
      match step cur kv with
      | Val cur' => rangeLoop step rest cur'
      | Err msg => Err msg
      | Panic => Panic
      end
  end.

Definition mergeConfig (kvs : list (string * string))
    (cur : option (gmap string string)) : Res (option (gmap string string)) :=
  rangeLoop configStep kvs cur.

Definition mergeHeaders (kvs : list (string * list string))
    (cur : option (gmap string (list string)))
  : Res (option (gmap string (list string))) :=
  rangeLoop headersStep kvs cur.

(** [kvs] is a possible visiting order of [range m]. *)
Definition rangeOf {V : Type} (m : gmap string V) (kvs : list (string * V))
  : Prop := kvs ≡ₚ map_to_list m.

End Merge.

(** The visiting orders of the two [range] loops of one [patchRoute] call. *)
Record Order : Type := mkOrder {
  configOrder : gmap string string → list (string * string);
  headersOrder : gmap string (list string) → list (string * list string)
}.

Definition validOrder (o : Order) : Prop :=
  (∀ m, Merge.rangeOf m (configOrder o m)) ∧
  (∀ m, Merge.rangeOf m (headersOrder o m)).

Definition mapOrder : Order := mkOrder map_to_list map_to_list.

(** ** The remote API client *)

(** Outcome of [GetAppsAppRoutesRoute]: a route, or one of the error types
    [patchRoute] switches on, or any other error (with its text). *)
Inductive GetResult : Type :=
  | GetOK (route : Route)
  | GetAppsAppRoutesRouteNotFound (message : string)
  | GetAppsAppRoutesDefault (message : string)
  | GetOtherError (text : string).

Inductive PatchResult : Type :=
  | PatchOK
  | PatchAppsAppRoutesRouteBadRequest (message : string)
  | PatchAppsAppRoutesRouteNotFound (message : string)
  | PatchAppsAppRoutesRouteDefault (message : string)
  | PatchOtherError (text : string).

Inductive PostResult : Type :=
  | PostOK
  | PostAppsAppRoutesBadRequest (message : string)
  | PostAppsAppRoutesConflict (message : string)
  | PostAppsAppRoutesDefault (message : string)
  | PostOtherError (text : string).

Record Client : Type := mkClient {
  GetAppsAppRoutesRoute : string → string → GetResult;
  PatchAppsAppRoutesRoute : string → string → Route → PatchResult;
  PostAppsAppRoutes : string → Route → PostResult
}.

Record routesCmd : Type := mkRoutesCmd { client : Client }.

(** The requests a call issues, in order. *)
Inductive Call : Type :=
  | CallGet (app route : string)
  | CallPatch (app route : string) (body : Route)
  | CallPost (app : string) (body : Route).

(** ** [patchRoute] (lines 372-457) *)

(** Lines 389-397: nil maps become empty maps, the path is cleared. *)
Definition normalize (route : Route) : Route :=
  let route := match Config route with
               | None => withConfig (Some ∅) route
               | Some _ => route
               end in
  let route := match Headers route with
               | None => withHeaders (Some ∅) route
               | Some _ => route
               end in
  withPath "" route.

(** Lines 399-416, for a non-nil delta [r]: the two merge loops. *)
Definition mergeMaps (o : Order) (route r : Route) : Res Route :=
  bindRes
    (match Config r with
     | None => Val route
     | Some delta =>
         bindRes (Merge.mergeConfig (configOrder o delta) (Config route))
           (λ cfg, Val (withConfig cfg route))
     end)
    (λ route,
       match Headers r with
       | None => Val route
       | Some delta =>
           bindRes (Merge.mergeHeaders (headersOrder o delta) (Headers route))
             (λ hdr, Val (withHeaders hdr route))
       end).

(** Lines 417-434: the scalar fields. *)
Definition overwriteScalars (route r : Route) : Route :=
  let route := if decide (Image r = "") then route
               else withImage (Image r) route in
  let route := if decide (Format r = "") then route
               else withFormat (Format r) route in
  let route := if decide (Type_ r = "") then route
               else withType (Type_ r) route in
  let route := if (0 <? MaxConcurrency r)%Z
               then withMaxConcurrency (MaxConcurrency r) route else route in
  let route := if (0 <? Memory r)%Z
               then withMemory (Memory r) route else route in
  match Timeout r with
  | Some _ => withTimeout (Timeout r) route
  | None => route
  end.

(** Lines 399-434, for a non-nil delta [r]. *)
Definition applyDelta (o : Order) (route r : Route) : Res Route :=
  bindRes (mergeMaps o route r) (λ route, Val (overwriteScalars route r)).

(** Lines 444-456. *)
Definition patchError (res : PatchResult) : Res unit :=
  match res with
  | PatchOK => Val ()
  | PatchAppsAppRoutesRouteBadRequest m => Err ("error: " +:+ m)
  | PatchAppsAppRoutesRouteNotFound m => Err ("error: " +:+ m)
  | PatchAppsAppRoutesRouteDefault m => Err ("unexpected error: " +:+ m)
  | PatchOtherError e => Err ("unexpected error: " +:+ e)
  end.

Definition patchRoute (a : routesCmd) (o : Order) (appName routePath : string)
    (r : option Route) : Res unit * list Call :=
  let get := CallGet appName routePath in
  match GetAppsAppRoutesRoute (client a) appName routePath with
  | GetAppsAppRoutesRouteNotFound m => (Err ("error: " +:+ m), [get])
  | GetAppsAppRoutesDefault m => (Err ("unexpected error: " +:+ m), [get])
  | GetOtherError e => (Err ("unexpected error: " +:+ e), [get])
  | GetOK resp =>
      let route := normalize resp in
      match (match r with
             | None => Val route
             | Some r => applyDelta o route r
             end) with
      | Val body =>
          (patchError (PatchAppsAppRoutesRoute (client a) appName routePath body),
           [get; CallPatch appName routePath body])
      | Err msg => (Err msg, [get])
      | Panic => (Panic, [get])
      end
  end.

(** ** The command context and the local function file *)

(** [cli.Context]: positional arguments and the flags the commands read.
    [c.Int], [c.Int64], [c.Duration] and [c.String] give the zero value for
    a flag that was not passed (the defaults of [create] are the flag
    declarations' [Value]s and arrive here as the flag's value). *)
Record Context : Type := mkContext {
  Args : list string;
  flagMemory : Z;              (* c.Int64("memory") *)
  flagType : string;           (* c.String("type") *)
  flagConfig : list string;    (* c.StringSlice("config") *)
  flagHeaders : list string;   (* c.StringSlice("headers") *)
  flagFormat : string;         (* c.String("format") *)
  flagMaxConcurrency : Z;      (* c.Int("max-concurrency") *)
  flagTimeout : Z              (* c.Duration("timeout"), nanoseconds *)
}.

(** [c.Args().Get(n)]: the empty string when there is no such argument. *)
Definition argsGet (c : Context) (n : nat) : string := default "" (Args c !! n).

Module Funcfile.
(** [*funcfile] as [create] and [update] read it; [FullName] is the
    result of the method [ff.FullName()], declared outside this file. *)
Record funcfile : Type := mk {
  FullName : string;
  Format : option string;        (* *string *)
  maxConcurrency : option Z;     (* *int *)
  Timeout : option Z;            (* *time.Duration, nanoseconds *)
  path : option string           (* *string *)
}.
End Funcfile.

Inductive LoadError : Type :=
  | notFoundError (text : string)
  | otherLoadError (text : string).

(** What the functions use from outside this file: the pair
    [(ff, err)] that [loadFuncfile()] returns, and [extractEnvConfig]. *)
Record Env : Type := mkEnv {
  loadFuncfile : option Funcfile.funcfile * option LoadError;
  extractEnvConfig : list string → option (gmap string string)
}.

(** [int32(x)]: two's complement wrap-around to 32 bits. *)
Definition int32 (x : Z) : Z :=
  ((x + 2147483648) `mod` 4294967296 - 2147483648)%Z.

(** ** Go's float64, on the binary64 numbers of the kernel *)

Module Float64.

(** [float64(n)] for an integer [n] of 64 bits. *)
Definition ofInt (n : Z) : PrimFloat.float :=
  if (n <? 0)%Z
  then PrimFloat.opp (PrimFloat.of_uint63 (Uint63.of_Z (- n)))
  else PrimFloat.of_uint63 (Uint63.of_Z n).

(** [int64(f)] for a finite [f] within the range of int64: the fraction
    is dropped (truncation toward zero). *)
Definition toInt (f : PrimFloat.float) : Z :=
  match Prim2SF f with
  | S754_finite sign m e =>
      let magnitude := if (0 <=? e)%Z then (Z.pos m * 2 ^ e)%Z
                       else (Z.pos m `div` 2 ^ (- e))%Z in
      if sign then (- magnitude)%Z else magnitude
  | _ => 0%Z
  end.

End Float64.

(** [int64(d.Seconds())] for a [time.Duration] [d] (an int64 of
    nanoseconds).  [Seconds] is
    [sec := d / Second; nsec := d % Second;
     return float64(sec) + float64(nsec)/1e9]:
    the sum is rounded to the nearest float64, so a fraction close to one
    second can round up to the next whole second. *)
Definition durationSeconds (d : Z) : Z :=
  let sec := (d `quot` 1000000000)%Z in
  let nsec := (d `rem` 1000000000)%Z in
  Float64.toInt
    (PrimFloat.add (Float64.ofInt sec)
       (PrimFloat.div (Float64.ofInt nsec) (Float64.ofInt 1000000000))).
Arguments durationSeconds : simpl never.

Definition Second : Z := 1000000000.

(** Lines 517-521 of [update]: each [name=v1;v2;...] literal becomes an
    entry; a literal without [=] makes [parts[1]] panic. *)
Fixpoint parseHeaders (literals : list string)
    (headers : gmap string (list string)) : Res (gmap string (list string)) :=
  match literals with
  | [] => Val headers
  | header :: rest =>
      match GoString.Split header ("=" : ascii) with
      | p0 :: p1 :: _ =>
          parseHeaders rest (<[p0 := GoString.Split p1 (";" : ascii)]> headers)
      | _ => Panic
      end
  end.

(** ** [update] (lines 459-542) *)

(** Lines 460-533: the application, the route path and the delta that
    [update] hands to [patchRoute]. *)
Definition updateDelta (e : Env) (c : Context) : Res (string * string * Route) :=
  if (length (Args c) <? 2)%nat then
    Err "error: route update takes at least two arguments: an app name and a path"
  else
    let appName := argsGet c 0 in
    let route := argsGet c 1 in
    let image := argsGet c 2 in
    bindRes
      (match (loadFuncfile e).2 with
       | Some (notFoundError _) =>
           if decide (image = "")
           then Err "error: image name is missing or no function file found"
           else Val ()
       | Some (otherLoadError text) => Err text
       | None => Val ()
       end)
      (λ _,
    (* [ff.FullName()] and [ff.Format] dereference [ff] *)
    match (loadFuncfile e).1 with
    | None => Panic
    | Some ff =>
        let image := if decide (image = "") then image
                     else Funcfile.FullName ff in
        let format := default "" (Funcfile.Format ff) in
        let maxC := default 0%Z (Funcfile.maxConcurrency ff) in
        let timeout := default 0%Z (Funcfile.Timeout ff) in
        let route := if decide (route = "")
                     then default route (Funcfile.path ff) else route in
        if decide (route = "") then Err "error: route path is missing"
        else
          let format := if decide (flagFormat c = "") then format
                        else flagFormat c in
          let maxC := if (0 <? flagMaxConcurrency c)%Z
                      then flagMaxConcurrency c else maxC in
          let timeout := if (0 <? flagTimeout c)%Z
                         then flagTimeout c else timeout in
          bindRes (parseHeaders (flagHeaders c) ∅) (λ headers,
          let to := durationSeconds timeout in
          Val (appName, route,
               mkRoute "" image (flagMemory c) (flagType c)
                 (extractEnvConfig e (flagConfig c)) (Some headers)
                 format (int32 maxC) (Some to)))
    end).

Definition update (a : routesCmd) (e : Env) (o : Order) (c : Context)
  : Res unit * list Call :=
  match updateDelta e c with
  | Val (appName, route, delta) => patchRoute a o appName route (Some delta)
  | Err msg => (Err msg, [])
  | Panic => (Panic, [])
  end.

(** ** [create] (lines 281-370) *)

(** Lines 283-348: the application and the body that [create] posts. *)
Definition createBody (e : Env) (c : Context) : Res (string * Route) :=
  if (length (Args c) <? 2)%nat then
    Err "error: routes listing takes at least two arguments: an app name and a path"
  else
    let appName := argsGet c 0 in
    let route := argsGet c 1 in
    let image := argsGet c 2 in
    bindRes
      (if decide (image = "") then
         match (loadFuncfile e).2 with
         | Some (notFoundError _) =>
             Err "error: image name is missing or no function file found"
         | Some (otherLoadError text) => Err text
         | None =>
             match (loadFuncfile e).1 with
             | None => Panic
             | Some ff =>
                 Val (Funcfile.FullName ff,
                      default "" (Funcfile.Format ff),
                      default 0%Z (Funcfile.maxConcurrency ff),
                      default 0%Z (Funcfile.Timeout ff),
                      if decide (route = "")
                      then default route (Funcfile.path ff) else route)
             end
         end
       else Val (image, "", 0%Z, 0%Z, route))
      (λ '(image, format, maxC, timeout, route),
    if decide (route = "") then Err "error: route path is missing"
    else if decide (image = "") then Err "error: function image name is missing"
    else
      let format := if decide (flagFormat c = "") then format
                    else flagFormat c in
      let maxC := if (0 <? flagMaxConcurrency c)%Z
                  then flagMaxConcurrency c else maxC in
      let timeout := if (0 <? flagTimeout c)%Z
                     then flagTimeout c else timeout in
      let to := durationSeconds timeout in
      Val (appName,
           mkRoute route image (flagMemory c) (flagType c)
             (extractEnvConfig e (flagConfig c)) None
             format (int32 maxC) (Some to))).

(** Lines 356-369. *)
Definition postError (res : PostResult) : Res unit :=
  match res with
  | PostOK => Val ()
  | PostAppsAppRoutesBadRequest m => Err ("error: " +:+ m)
  | PostAppsAppRoutesConflict m => Err ("error: " +:+ m)
  | PostAppsAppRoutesDefault m => Err ("unexpected error: " +:+ m)
  | PostOtherError e => Err ("unexpected error: " +:+ e)
  end.

Definition create (a : routesCmd) (e : Env) (c : Context)
  : Res unit * list Call :=
  match createBody e c with
  | Val (appName, body) =>
      (postError (PostAppsAppRoutes (client a) appName body),
       [CallPost appName body])
  | Err msg => (Err msg, [])
  | Panic => (Panic, [])
  end.

(** ** [configSet] and [configUnset] (lines 544-591) *)

Definition configSet (a : routesCmd) (o : Order) (c : Context)
  : Res unit * list Call :=
  if (length (Args c) <? 4)%nat then
    (Err "error: route configuration updates tak four arguments: an app name, a path, a key and a value", [])
  else
    patchRoute a o (argsGet c 0) (argsGet c 1)
      (Some (mkRoute "" "" 0 "" (Some {[ argsGet c 2 := argsGet c 3 ]}) None
               "" 0 None)).

Definition configUnset (a : routesCmd) (o : Order) (c : Context)
  : Res unit * list Call :=
  if (length (Args c) <? 3)%nat then
    (Err "error: route configuration updates take three arguments: an app name, a path and a key", [])
  else
    patchRoute a o (argsGet c 0) (argsGet c 1)
      (Some (mkRoute "" "" 0 "" (Some {[ "-" +:+ argsGet c 2 := "" ]}) None
               "" 0 None)).

(** ** Loops as sequences of map operations

    Every entry of a delta acts on one target key, which it either sets or
    deletes.  The two loops differ in the target of a deletion only. *)

Definition applyOp {V : Type} (m : gmap string V) (op : string * option V)
  : gmap string V :=
  match op.2 with
  | Some v => <[op.1 := v]> m
  | None => delete op.1 m
  end.

Definition applyOps {V : Type} (ops : list (string * option V))
    (m : gmap string V) : gmap string V := foldl applyOp m ops.

Definition configOp (kv : string * string) : string * option string :=
  match GoString.firstIsDash kv.1 with
  | Some true => (GoString.dropFirst kv.1, None)
  | _ => (kv.1, Some kv.2)
  end.

Definition headersOp (kv : string * list string)
  : string * option (list string) :=
  match GoString.firstIsDash kv.1 with
  | Some true => (kv.1, None)
  | _ => (kv.1, Some kv.2)
  end.

(** ** Deltas as maps *)

Definition noEmptyKey {V : Type} (delta : gmap string V) : Prop :=
  delta !! "" = None.

(** No key [k] that is set comes with its own deletion key [-k]. *)
Definition noConflict (delta : gmap string string) : Prop :=
  map_Forall (λ k _, GoString.firstIsDash k = Some false →
                     delta !! ("-" +:+ k) = None) delta.

#[global] Instance noConflict_dec delta : Decision (noConflict delta).
Proof. unfold noConflict. apply _. Defined.

(** The value of key [j] after the config merge of a delta without
    conflict. *)
Definition configMerged (delta cur : gmap string string) (j : string)
  : option string :=
  match delta !! ("-" +:+ j) with
  | Some _ => None
  | None =>
      match GoString.firstIsDash j, delta !! j with
      | Some false, Some v => Some v
      | _, _ => cur !! j
      end
  end.

(** The value of key [j] after the headers merge. *)
Definition headersMerged (delta cur : gmap string (list string)) (j : string)
  : option (list string) :=
  match GoString.firstIsDash j, delta !! j with
  | Some true, Some _ => None
  | Some false, Some v => Some v
  | _, _ => cur !! j
  end.

(** ** Statements about the merge *)

(** A key is a deletion key when it starts with a dash. *)
Definition isDeletionKey (k : string) : Prop :=
  GoString.firstIsDash k = Some true.

(** The postcondition of the config merge of [delta] into [cur]: the merge
    returns a map in which every non-deletion key of the delta has the
    delta's value, every key [k] whose deletion key [-k] is in the delta is
    absent, and every key mentioned in neither way is as in [cur]. *)
Definition configPostcondition (delta cur : gmap string string)
    (res : Res (option (gmap string string))) : Prop :=
  ∃ m', res = Val (Some m') ∧
    (∀ k v, delta !! k = Some v → ¬ isDeletionKey k → m' !! k = Some v) ∧
    (∀ k, is_Some (delta !! ("-" +:+ k)) → m' !! k = None) ∧
    (∀ j, ¬ (is_Some (delta !! j) ∧ ¬ isDeletionKey j) →
          delta !! ("-" +:+ j) = None → m' !! j = cur !! j).

(** The delta has the empty string among the keys of its config or of its
    headers. *)
Definition hasEmptyKey (r : Route) : Prop :=
  (∃ d, Config r = Some d ∧ is_Some (d !! "")) ∨
  (∃ d, Headers r = Some d ∧ is_Some (d !! "")).

(** [result] is [new] when [cond] holds and [old] otherwise. *)
Definition overwrittenWhen {A : Type} (cond : Prop) (new old result : A)
  : Prop :=
  (cond → result = new) ∧ (¬ cond → result = old).

(** No request of the trace is a replace call. *)
Definition noPatchCall (trace : list Call) : Prop :=
  ∀ app route body, CallPatch app route body ∉ trace.

(** ** Sample routes, deltas and clients *)

Module Sample.

Definition fetched : Route :=
  mkRoute "/hello" "me/hello:0.0.1" 128 "sync"
    (Some {[ "k" := "v" ]}) (Some {[ "X-Trace" := ["on"] ]}) "" 1 (Some 30%Z).

(** A client whose fetch and replace answers are fixed. *)
Definition stub (get : GetResult) (patch : PatchResult) : routesCmd :=
  mkRoutesCmd (mkClient (λ _ _, get) (λ _ _ _, patch) (λ _ _, PostOK)).

(** The delta of [update --headers -X-Trace=]. *)
Definition dropHeader : Route :=
  mkRoute "" "" 0 "" None (Some {[ "-X-Trace" := [""] ]}) "" 0 None.

(** A config delta that sets [a] and deletes [a]. *)
Definition setAndDelete : gmap string string :=
  {[ "a" := "1"; "-a" := "" ]}.

(** The config delta of [config set] with an empty key. *)
Definition emptyKey : gmap string string := {[ "" := "x" ]}.

(** A delta that carries nothing but a timeout of zero seconds. *)
Definition zeroTimeout : Route :=
  mkRoute "" "" 0 "" None None "" 0 (Some 0%Z).

(** A function file that names an image and nothing else. *)
Definition funcfile : Funcfile.funcfile :=
  Funcfile.mk "me/hello:0.0.1" None None None None.

Definition env (load : option Funcfile.funcfile * option LoadError) : Env :=
  mkEnv load (λ _, Some ∅).

(** [fn routes update app /hello] and
    [fn routes update app /hello other/image], without flags. *)
Definition updateNoImage : Context :=
  mkContext ["app"; "/hello"] 0 "" [] [] "" 0 0.
Definition updateWithImage : Context :=
  mkContext ["app"; "/hello"; "other/image"] 0 "" [] [] "" 0 0.

(** A function file with format [http], max-concurrency 4 and a timeout
    of 30s. *)
Definition tuned : Funcfile.funcfile :=
  Funcfile.mk "me/hello:0.0.1" (Some "http") (Some 4%Z)
    (Some (30 * Second)%Z) None.

(** A function file that gives no image name. *)
Definition unnamed : Funcfile.funcfile :=
  Funcfile.mk "" None None None None.

(** [fn routes update app /hello --max-concurrency -2 --timeout -5s]. *)
Definition updateNegativeFlags : Context :=
  mkContext ["app"; "/hello"] 0 "" [] [] "" (-2) (-5 * Second).

(** [fn routes update app /hello --format json --max-concurrency 8
    --timeout 45s]. *)
Definition updateAllFlags : Context :=
  mkContext ["app"; "/hello"] 0 "" [] [] "json" 8 (45 * Second).

End Sample.

(** ** Header literals of [update --headers] *)

(** The byte [c] occurs in [s]. *)
Fixpoint containsByte (c : ascii) (s : string) : bool :=
  match s with
  | EmptyString => false
  | String b rest => Ascii.eqb b c || containsByte c rest
  end.

(** The pieces of [l] with [sep] between them (what [strings.Join] gives
    for a separator of one byte). *)
Fixpoint joinWith (sep : ascii) (l : list string) : string :=
  match l with
  | [] => EmptyString
  | [p] => p
  | p :: rest => p +:+ String sep (joinWith sep rest)
  end.

(** The literal [name=v1;v2;...] that the [--headers] flag takes. *)
Definition headerLiteral (entry : string * list string) : string :=
  entry.1 +:+ String "=" (joinWith ";" entry.2).

(** A header entry that a literal can express: no [=] in the name, at
    least one value, no [;] and no [=] in a value. *)
Definition expressible (entry : string * list string) : Prop :=
  containsByte "=" entry.1 = false ∧ entry.2 ≠ [] ∧
  Forall (λ v, containsByte ";" v = false ∧ containsByte "=" v = false) entry.2.

(** ** [callfn] and [envAsHeader] (lines 238-279) *)

Module Http.








End Http.

(** ** Parts of [update], named *)

(** The route path [update] works on (lines 465, 496-498). *)
Definition updateRoute (c : Context) (ff : Funcfile.funcfile) : string :=
  if decide (argsGet c 1 = "")
  then default (argsGet c 1) (Funcfile.path ff) else argsGet c 1.

(** The timeout [update] submits (lines 493-495, 513-515, 523). *)
Definition updateTimeout (c : Context) (ff : Funcfile.funcfile) : Z :=
  durationSeconds
    (if (0 <? flagTimeout c)%Z then flagTimeout c
     else default 0%Z (Funcfile.Timeout ff)).

(** The max-concurrency [update] resolves (lines 490-492, 510-512), before
    its conversion to int32. *)
Definition updateMaxConcurrency (c : Context) (ff : Funcfile.funcfile) : Z :=
  if (0 <? flagMaxConcurrency c)%Z then flagMaxConcurrency c
  else default 0%Z (Funcfile.maxConcurrency ff).

(** * Properties *)

(** ** Strings *)

Section string_facts.

Lemma firstIsDash_dash (k : string) :
  GoString.firstIsDash ("-" +:+ k) = Some true.
Proof. reflexivity. Qed.

Lemma firstIsDash_true (k : string) :
  GoString.firstIsDash k = Some true → k = "-" +:+ GoString.dropFirst k.
Proof.
  destruct k as [|c k]; simpl; [discriminate|].
  intros [= Hc]. apply Ascii.eqb_eq in Hc. by subst c.
Qed.

Lemma firstIsDash_None (k : string) :
  GoString.firstIsDash k = None ↔ k = "".
Proof. destruct k; simpl; split; congruence. Qed.

Lemma dropFirst_dash (k : string) : GoString.dropFirst ("-" +:+ k) = k.
Proof. reflexivity. Qed.

End string_facts.

(** ** Sequences of map operations *)

Section ops.
Context {V : Type}.
Implicit Types (m : gmap string V) (ops : list (string * option V)).

Lemma applyOp_ne m op j : op.1 ≠ j → applyOp m op !! j = m !! j.
Proof.
  intros Hne. unfold applyOp. destruct op.2.
  - by rewrite lookup_insert_ne.
  - by rewrite lookup_delete_ne.
Qed.

Lemma applyOp_eq m op : applyOp m op !! op.1 = op.2.
Proof.
  unfold applyOp. destruct op.2.
  - by rewrite lookup_insert_eq.
  - by rewrite lookup_delete_eq.
Qed.

Lemma applyOps_untouched ops m j :
  j ∉ ops.*1 → applyOps ops m !! j = m !! j.
Proof.
  revert m. induction ops as [|op ops IH]; intros m Hj; [done|].
  rewrite fmap_cons, not_elem_of_cons in Hj. destruct Hj as [Hne Hj].
  unfold applyOps in *. simpl. rewrite IH by done.
  by apply applyOp_ne.
Qed.

Lemma applyOps_target ops m t o :
  NoDup ops.*1 → (t, o) ∈ ops → applyOps ops m !! t = o.
Proof.
  revert m. induction ops as [|op ops IH]; intros m Hnd Hin.
  - by apply elem_of_nil in Hin.
  - rewrite fmap_cons in Hnd. apply NoDup_cons in Hnd as [Hfresh Hnd].
    apply elem_of_cons in Hin as [<-|Hin].
    + change (applyOps ((t, o) :: ops) m) with (applyOps ops (applyOp m (t, o))).
      rewrite applyOps_untouched by done. apply (applyOp_eq m (t, o)).
    + change (applyOps (op :: ops) m) with (applyOps ops (applyOp m op)).
      by apply IH.
Qed.

End ops.

(** ** The two loops as operation sequences *)

Section loops.

Lemma mergeConfig_ops (l : list (string * string)) (cur : gmap string string) :
  "" ∉ l.*1 →
  Merge.mergeConfig l (Some cur) = Val (Some (applyOps (configOp <$> l) cur)).
Proof.
  revert cur. induction l as [|[k v] l IH]; intros cur Hne; [done|].
  rewrite fmap_cons, not_elem_of_cons in Hne. destruct Hne as [Hk Hne].
  unfold Merge.mergeConfig in *. simpl in *.
  unfold Merge.configStep, configOp, applyOps. simpl.
  destruct (GoString.firstIsDash k) as [[]|] eqn:Hd; simpl.
  - by rewrite IH.
  - by rewrite IH.
  - apply firstIsDash_None in Hd. congruence.
Qed.

Lemma mergeHeaders_ops (l : list (string * list string))
    (cur : gmap string (list string)) :
  "" ∉ l.*1 →
  Merge.mergeHeaders l (Some cur) = Val (Some (applyOps (headersOp <$> l) cur)).
Proof.
  revert cur. induction l as [|[k v] l IH]; intros cur Hne; [done|].
  rewrite fmap_cons, not_elem_of_cons in Hne. destruct Hne as [Hk Hne].
  unfold Merge.mergeHeaders in *. simpl in *.
  unfold Merge.headersStep, headersOp, applyOps. simpl.
  destruct (GoString.firstIsDash k) as [[]|] eqn:Hd; simpl.
  - by rewrite IH.
  - by rewrite IH.
  - apply firstIsDash_None in Hd. congruence.
Qed.

(** The loop bodies return no [Err]. *)
Lemma configStep_no_Err cur kv msg : Merge.configStep cur kv ≠ Err msg.
Proof.
  unfold Merge.configStep, GoMap.assign.
  by destruct (GoString.firstIsDash _) as [[]|], cur.
Qed.

Lemma headersStep_no_Err cur kv msg : Merge.headersStep cur kv ≠ Err msg.
Proof.
  unfold Merge.headersStep, GoMap.assign.
  by destruct (GoString.firstIsDash _) as [[]|], cur.
Qed.

Lemma mergeConfig_no_Err l cur msg : Merge.mergeConfig l cur ≠ Err msg.
Proof.
  revert cur. induction l as [|kv l IH]; intros cur; [done|].
  unfold Merge.mergeConfig in *. simpl.
  destruct (Merge.configStep cur kv) eqn:Hs; [apply IH| |done].
  by apply configStep_no_Err in Hs.
Qed.

Lemma mergeHeaders_no_Err l cur msg : Merge.mergeHeaders l cur ≠ Err msg.
Proof.
  revert cur. induction l as [|kv l IH]; intros cur; [done|].
  unfold Merge.mergeHeaders in *. simpl.
  destruct (Merge.headersStep cur kv) eqn:Hs; [apply IH| |done].
  by apply headersStep_no_Err in Hs.
Qed.

(** An empty key makes the loop panic, whatever was visited before it. *)
Lemma mergeConfig_panic (l : list (string * string)) cur :
  "" ∈ l.*1 → Merge.mergeConfig l cur = Panic.
Proof.
  revert cur. induction l as [|[k v] l IH]; intros cur Hin.
  - by apply elem_of_nil in Hin.
  - rewrite fmap_cons in Hin. apply elem_of_cons in Hin as [Hk|Hin].
    + simpl in Hk. subst k. reflexivity.
    + unfold Merge.mergeConfig in *. simpl.
      destruct (Merge.configStep cur (k, v)) eqn:Hs; [by apply IH| |done].
      by apply configStep_no_Err in Hs.
Qed.

Lemma mergeHeaders_panic (l : list (string * list string)) cur :
  "" ∈ l.*1 → Merge.mergeHeaders l cur = Panic.
Proof.
  revert cur. induction l as [|[k v] l IH]; intros cur Hin.
  - by apply elem_of_nil in Hin.
  - rewrite fmap_cons in Hin. apply elem_of_cons in Hin as [Hk|Hin].
    + simpl in Hk. subst k. reflexivity.
    + unfold Merge.mergeHeaders in *. simpl.
      destruct (Merge.headersStep cur (k, v)) eqn:Hs; [by apply IH| |done].
      by apply headersStep_no_Err in Hs.
Qed.

End loops.

(** ** What a merge computes, whatever the visiting order *)

Section range_facts.
Context {V : Type}.
Implicit Types (m : gmap string V) (l : list (string * V)).

Lemma rangeOf_elem m l k v : Merge.rangeOf m l → (k, v) ∈ l ↔ m !! k = Some v.
Proof. intros Hl. unfold Merge.rangeOf in Hl. rewrite Hl. apply elem_of_map_to_list. Qed.

Lemma rangeOf_NoDup m l : Merge.rangeOf m l → NoDup l.*1.
Proof.
  intros Hl. unfold Merge.rangeOf in Hl. rewrite Hl.
  apply NoDup_fst_map_to_list.
Qed.

Lemma rangeOf_key m l k : Merge.rangeOf m l → k ∈ l.*1 ↔ is_Some (m !! k).
Proof.
  intros Hl. rewrite list_elem_of_fmap. split.
  - intros [[k' v] [-> Hin]]. apply (rangeOf_elem m l) in Hin; [|done].
    simpl. eauto.
  - intros [v Hv]. exists (k, v). split; [done|].
    by apply (rangeOf_elem m l).
Qed.

Lemma rangeOf_noEmptyKey m l : Merge.rangeOf m l → noEmptyKey m → "" ∉ l.*1.
Proof.
  intros Hl Hne Hin. apply (rangeOf_key m l) in Hin as [v Hv]; [|done].
  unfold noEmptyKey in Hne. congruence.
Qed.

Lemma rangeOf_map_to_list m : Merge.rangeOf m (map_to_list m).
Proof. unfold Merge.rangeOf. reflexivity. Qed.

End range_facts.

Section config_facts.
Implicit Types (delta cur : gmap string string) (l : list (string * string)).

Lemma configOp_targets_NoDup delta l :
  Merge.rangeOf delta l → noEmptyKey delta → noConflict delta →
  NoDup (configOp <$> l).*1.
Proof.
  intros Hl Hne Hnc. rewrite <- list_fmap_compose.
  apply NoDup_fmap_2_strong.
  2: { eapply NoDup_fmap_1, rangeOf_NoDup, Hl. }
  intros [k1 v1] [k2 v2] H1 H2 Heq.
  apply (rangeOf_elem delta l) in H1; [|done].
  apply (rangeOf_elem delta l) in H2; [|done].
  assert (k1 = k2) as ->; [|congruence].
  unfold compose, configOp in Heq. simpl in Heq.
  destruct (GoString.firstIsDash k1) as [[]|] eqn:E1;
    destruct (GoString.firstIsDash k2) as [[]|] eqn:E2; simpl in Heq;
    try done;
    try (apply firstIsDash_None in E1; subst; unfold noEmptyKey in Hne; congruence);
    try (apply firstIsDash_None in E2; subst; unfold noEmptyKey in Hne; congruence).
  - apply firstIsDash_true in E1, E2. congruence.
  - apply firstIsDash_true in E1. rewrite Heq in E1.
    specialize (Hnc k2 v2 H2 E2). simpl in Hnc. congruence.
  - apply firstIsDash_true in E2. rewrite <- Heq in E2.
    specialize (Hnc k1 v1 H1 E1). simpl in Hnc. congruence.
Qed.

(** The config merge of a delta with non-empty keys and without conflict
    returns, and its result is [configMerged] at every key. *)
Lemma mergeConfig_closed delta cur l :
  Merge.rangeOf delta l → noEmptyKey delta → noConflict delta →
  ∃ m', Merge.mergeConfig l (Some cur) = Val (Some m') ∧
        ∀ j, m' !! j = configMerged delta cur j.
Proof.
  intros Hl Hne Hnc. eexists. split.
  { apply mergeConfig_ops. by eapply rangeOf_noEmptyKey. }
  intros j. unfold configMerged.
  pose proof (configOp_targets_NoDup delta l Hl Hne Hnc) as Hnd.
  destruct (delta !! ("-" +:+ j)) as [x|] eqn:Hdel.
  { apply applyOps_target; [done|].
    apply list_elem_of_fmap. exists ("-" +:+ j, x). split; [done|].
    by apply (rangeOf_elem delta l). }
  destruct (GoString.firstIsDash j) as [[]|] eqn:Hd;
    destruct (delta !! j) as [v|] eqn:Hj;
    try (apply applyOps_target; [done|];
         apply list_elem_of_fmap; exists (j, v); split;
         [unfold configOp; simpl; by rewrite Hd | by apply (rangeOf_elem delta l)]).
  all: apply applyOps_untouched; rewrite <- list_fmap_compose;
    intros ([k v'] & Hk & Hin)%list_elem_of_fmap;
    apply (rangeOf_elem delta l) in Hin; [|done];
    unfold compose, configOp in Hk; simpl in Hk;
    destruct (GoString.firstIsDash k) as [[]|] eqn:Ek; simpl in Hk; subst;
    try (apply firstIsDash_true in Ek; simpl in Ek);
    try (apply firstIsDash_None in Ek; subst; unfold noEmptyKey in Hne);
    congruence.
Qed.

End config_facts.

Section headers_facts.
Implicit Types (delta cur : gmap string (list string))
               (l : list (string * list string)).

Lemma headersOp_targets l : (headersOp <$> l).*1 = l.*1.
Proof.
  rewrite <- list_fmap_compose. apply list_fmap_ext.
  intros i [k v] _. unfold compose, headersOp. simpl.
  by destruct (GoString.firstIsDash k) as [[]|].
Qed.

(** The headers merge of a delta with non-empty keys returns, and its
    result is [headersMerged] at every key. *)
Lemma mergeHeaders_closed delta cur l :
  Merge.rangeOf delta l → noEmptyKey delta →
  ∃ m', Merge.mergeHeaders l (Some cur) = Val (Some m') ∧
        ∀ j, m' !! j = headersMerged delta cur j.
Proof.
  intros Hl Hne. eexists. split.
  { apply mergeHeaders_ops. by eapply rangeOf_noEmptyKey. }
  intros j. unfold headersMerged.
  assert (NoDup (headersOp <$> l).*1) as Hnd.
  { rewrite headersOp_targets. by eapply rangeOf_NoDup. }
  destruct (delta !! j) as [v|] eqn:Hj.
  - destruct (GoString.firstIsDash j) as [[]|] eqn:Hd.
    + apply applyOps_target; [done|]. apply list_elem_of_fmap.
      exists (j, v). split; [unfold headersOp; simpl; by rewrite Hd|].
      by apply (rangeOf_elem delta l).
    + apply applyOps_target; [done|]. apply list_elem_of_fmap.
      exists (j, v). split; [unfold headersOp; simpl; by rewrite Hd|].
      by apply (rangeOf_elem delta l).
    + apply firstIsDash_None in Hd. subst j.
      unfold noEmptyKey in Hne. congruence.
  - assert (applyOps (headersOp <$> l) cur !! j = cur !! j) as ->.
    { apply applyOps_untouched. rewrite headersOp_targets.
      rewrite (rangeOf_key delta l) by done. rewrite Hj. by intros [? ?]. }
    by destruct (GoString.firstIsDash j) as [[]|].
Qed.

End headers_facts.

(** ** The merge inside [patchRoute] *)

Section merge_claims.

Lemma validOrder_mapOrder : validOrder mapOrder.
Proof. split; intros m; apply rangeOf_map_to_list. Qed.

(** The headers loop removes no key that does not start with a dash. *)
Lemma mergeHeaders_keeps_plain_keys l cur j :
  GoString.firstIsDash j = Some false → is_Some (cur !! j) →
  ∀ m', Merge.mergeHeaders l (Some cur) = Val (Some m') → is_Some (m' !! j).
Proof.
  intros Hj. revert cur. induction l as [|[k v] l IH]; intros cur Hcur m' Hm.
  - unfold Merge.mergeHeaders in Hm. simpl in Hm. by simplify_eq.
  - unfold Merge.mergeHeaders in *. simpl in Hm.
    unfold Merge.headersStep in Hm. simpl in Hm.
    destruct (GoString.firstIsDash k) as [[]|] eqn:Hk; simpl in Hm; [| |done].
    + apply (IH (delete k cur)); [|done].
      rewrite lookup_delete_ne; [done|congruence].
    + apply (IH (<[k:=v]> cur)); [|done].
      destruct (decide (k = j)) as [->|Hne].
      * rewrite lookup_insert_eq. eauto.
      * by rewrite lookup_insert_ne.
Qed.

End merge_claims.

(** C1.  The headers loop of [patchRoute] does not treat a deletion key as
    the config loop does: on the route [Sample.fetched], whose headers hold
    [X-Trace], the delta with the header key [-X-Trace] is merged and
    submitted with [X-Trace] still present, because line 411 deletes the key
    [k] itself where line 402 deletes [k[1:]]. *)
Theorem C1_headers_deletion_key_not_stripped :
  ∃ body,
    patchRoute (Sample.stub (GetOK Sample.fetched) PatchOK) mapOrder
      "app" "/hello" (Some Sample.dropHeader)
    = (Val (), [CallGet "app" "/hello"; CallPatch "app" "/hello" body]) ∧
    Headers body = Some {[ "X-Trace" := ["on"] ]} ∧
    (∀ m, Headers body = Some m → m !! "X-Trace" = Some ["on"]).
Proof.
  eexists. split; [vm_compute; reflexivity|]. split; [reflexivity|].
  intros m [= <-]. reflexivity.
Qed.

(** C2 fails as stated: for the delta that holds both [a] and [-a] no
    visiting order gives the postcondition, and for a delta with the empty
    key the loop panics. *)
Lemma C2_counterexample :
  Merge.rangeOf Sample.setAndDelete [("a", "1"); ("-a", "")] ∧
  Merge.rangeOf Sample.setAndDelete [("-a", ""); ("a", "1")] ∧
  ¬ configPostcondition Sample.setAndDelete ∅
      (Merge.mergeConfig [("a", "1"); ("-a", "")] (Some ∅)) ∧
  ¬ configPostcondition Sample.setAndDelete ∅
      (Merge.mergeConfig [("-a", ""); ("a", "1")] (Some ∅)) ∧
  Merge.rangeOf Sample.emptyKey [("", "x")] ∧
  ¬ configPostcondition Sample.emptyKey ∅
      (Merge.mergeConfig [("", "x")] (Some ∅)).
Proof.
  assert (∀ res, ¬ configPostcondition Sample.setAndDelete ∅ res) as Hno.
  { intros res (m' & _ & Hset & Hdel & _).
    specialize (Hset "a" "1" eq_refl). specialize (Hdel "a").
    rewrite Hdel in Hset; [|by eexists].
    assert (¬ isDeletionKey "a") as Ha by (unfold isDeletionKey; simpl; congruence).
    specialize (Hset Ha). discriminate. }
  repeat split; try apply Hno.
  - unfold Merge.rangeOf. vm_compute map_to_list. apply perm_swap.
  - unfold Merge.rangeOf. vm_compute map_to_list. reflexivity.
  - unfold Merge.rangeOf. vm_compute map_to_list. reflexivity.
  - intros (m' & Hres & _). vm_compute in Hres. discriminate.
Qed.

(** C2 (amended).  For every config delta whose keys are non-empty and in
    which no key that is set comes with its own deletion key, and for every
    visiting order, the config merge returns a map in which every
    non-deletion key of the delta has the delta's value, every key [k] with
    [-k] in the delta is absent (also when it was absent before), and every
    key mentioned in neither way keeps its fetched value. *)
Theorem C2_config_merge_postcondition
    (delta cur : gmap string string) (l : list (string * string)) :
  Merge.rangeOf delta l → noEmptyKey delta → noConflict delta →
  configPostcondition delta cur (Merge.mergeConfig l (Some cur)).
Proof.
  intros Hl Hne Hnc.
  destruct (mergeConfig_closed delta cur l Hl Hne Hnc) as (m' & Hres & Hm').
  exists m'. split; [done|]. unfold isDeletionKey. repeat split.
  - intros k v Hk Hnd. rewrite Hm'. unfold configMerged.
    assert (GoString.firstIsDash k = Some false) as Hd.
    { destruct (GoString.firstIsDash k) as [[]|] eqn:E; [done|done|].
      apply firstIsDash_None in E. subst k. unfold noEmptyKey in Hne. congruence. }
    rewrite (Hnc k v Hk Hd), Hd, Hk. done.
  - intros k [x Hx]. rewrite Hm'. unfold configMerged. by rewrite Hx.
  - intros j Hj Hdel. rewrite Hm'. unfold configMerged. rewrite Hdel.
    destruct (GoString.firstIsDash j) as [[]|] eqn:Hd; try done.
    destruct (delta !! j) as [v|] eqn:Hv; [|done].
    exfalso. apply Hj. split; [by eexists|congruence].
Qed.

Lemma C2_config_merge_postcondition_witness :
  configPostcondition {[ "a" := "1"; "-b" := "" ]} {[ "b" := "2"; "c" := "3" ]}
    (Merge.mergeConfig (map_to_list {[ "a" := "1"; "-b" := "" ]})
       (Some {[ "b" := "2"; "c" := "3" ]})).
Proof.
  apply C2_config_merge_postcondition.
  - apply rangeOf_map_to_list.
  - reflexivity.
  - apply (@bool_decide_unpack _ (noConflict_dec _)). vm_compute. exact I.
Defined.

(** C9 fails as stated: the delta that holds both [a] and [-a], merged
    twice into the empty config with the two visiting orders, gives
    [{a = 1}] where one merge gives the empty config. *)
Lemma C9_counterexample :
  Merge.rangeOf Sample.setAndDelete [("a", "1"); ("-a", "")] ∧
  Merge.rangeOf Sample.setAndDelete [("-a", ""); ("a", "1")] ∧
  Merge.mergeConfig [("a", "1"); ("-a", "")] (Some ∅) = Val (Some ∅) ∧
  bindRes (Merge.mergeConfig [("a", "1"); ("-a", "")] (Some ∅))
          (Merge.mergeConfig [("-a", ""); ("a", "1")])
  = Val (Some {[ "a" := "1" ]}) ∧
  bindRes (Merge.mergeConfig [("a", "1"); ("-a", "")] (Some ∅))
          (Merge.mergeConfig [("-a", ""); ("a", "1")])
  ≠ Merge.mergeConfig [("a", "1"); ("-a", "")] (Some ∅).
Proof.
  split; [unfold Merge.rangeOf; vm_compute map_to_list; apply perm_swap|].
  split; [unfold Merge.rangeOf; vm_compute map_to_list; reflexivity|].
  split; [vm_compute; reflexivity|]. split; [vm_compute; reflexivity|].
  vm_compute. discriminate.
Qed.

(** C9 (amended).  For every current config and every config delta in which
    no key that is set comes with its own deletion key, merging the delta
    twice gives the same result as merging it once, whatever the visiting
    orders of the two loops; for headers this holds for every delta.  (With
    an empty key in the delta both sides are the panic.) *)
Theorem C9_merge_idempotent
    (delta cur : gmap string string) (l1 l2 : list (string * string))
    (hdelta hcur : gmap string (list string))
    (h1 h2 : list (string * list string)) :
  Merge.rangeOf delta l1 → Merge.rangeOf delta l2 → noConflict delta →
  Merge.rangeOf hdelta h1 → Merge.rangeOf hdelta h2 →
  bindRes (Merge.mergeConfig l1 (Some cur)) (Merge.mergeConfig l2)
  = Merge.mergeConfig l1 (Some cur) ∧
  bindRes (Merge.mergeHeaders h1 (Some hcur)) (Merge.mergeHeaders h2)
  = Merge.mergeHeaders h1 (Some hcur).
Proof.
  intros Hl1 Hl2 Hnc Hh1 Hh2. split.
  - destruct (decide (noEmptyKey delta)) as [Hne|He].
    + destruct (mergeConfig_closed delta cur l1 Hl1 Hne Hnc) as (m1 & -> & Hm1).
      destruct (mergeConfig_closed delta m1 l2 Hl2 Hne Hnc) as (m2 & Hr2 & Hm2).
      simpl. rewrite Hr2. do 2 f_equal. apply map_eq. intros j.
      rewrite Hm2. unfold configMerged at 1.
      destruct (delta !! ("-" +:+ j)) eqn:E1;
        [rewrite Hm1; unfold configMerged; by rewrite E1|].
      destruct (GoString.firstIsDash j) as [[]|] eqn:E2;
        destruct (delta !! j) eqn:E3; try done;
        rewrite (Hm1 j); unfold configMerged; by rewrite E1, E2, ?E3.
    + rewrite mergeConfig_panic; [done|].
      apply (rangeOf_key delta l1); [done|].
      unfold noEmptyKey in He. by apply not_eq_None_Some.
  - destruct (decide (noEmptyKey hdelta)) as [Hne|He].
    + destruct (mergeHeaders_closed hdelta hcur h1 Hh1 Hne) as (m1 & -> & Hm1).
      destruct (mergeHeaders_closed hdelta m1 h2 Hh2 Hne) as (m2 & Hr2 & Hm2).
      simpl. rewrite Hr2. do 2 f_equal. apply map_eq. intros j.
      rewrite Hm2. unfold headersMerged at 1.
      destruct (GoString.firstIsDash j) as [[]|] eqn:E2;
        destruct (hdelta !! j) eqn:E3; try done;
        rewrite (Hm1 j); unfold headersMerged; by rewrite E2, ?E3.
    + rewrite mergeHeaders_panic; [done|].
      apply (rangeOf_key hdelta h1); [done|].
      unfold noEmptyKey in He. by apply not_eq_None_Some.
Qed.

Lemma C9_merge_idempotent_witness :
  bindRes (Merge.mergeConfig [("a", "1"); ("-b", "")] (Some {[ "b" := "2" ]}))
          (Merge.mergeConfig [("-b", ""); ("a", "1")])
  = Merge.mergeConfig [("a", "1"); ("-b", "")] (Some {[ "b" := "2" ]}) ∧
  bindRes (Merge.mergeHeaders [("-X", [""]); ("Y", ["1"; "2"])] (Some {[ "X" := ["0"] ]}))
          (Merge.mergeHeaders [("Y", ["1"; "2"]); ("-X", [""])])
  = Merge.mergeHeaders [("-X", [""]); ("Y", ["1"; "2"])] (Some {[ "X" := ["0"] ]}).
Proof.
  apply (C9_merge_idempotent {[ "a" := "1"; "-b" := "" ]} {[ "b" := "2" ]}
           [("a", "1"); ("-b", "")] [("-b", ""); ("a", "1")]
           {[ "-X" := [""]; "Y" := ["1"; "2"] ]} {[ "X" := ["0"] ]}
           [("-X", [""]); ("Y", ["1"; "2"])] [("Y", ["1"; "2"]); ("-X", [""])]).
  - unfold Merge.rangeOf. vm_compute map_to_list. apply perm_swap.
  - unfold Merge.rangeOf. vm_compute map_to_list. reflexivity.
  - apply (@bool_decide_unpack _ (noConflict_dec _)). vm_compute. exact I.
  - unfold Merge.rangeOf. vm_compute map_to_list. reflexivity.
  - unfold Merge.rangeOf. vm_compute map_to_list. apply perm_swap.
Defined.

(** ** [patchRoute] around the merge *)

Section patch_facts.

Lemma mergeConfig_nonnil l cur x :
  Merge.mergeConfig l cur = Val x → is_Some cur → is_Some x.
Proof.
  revert cur. induction l as [|kv l IH]; intros cur Hm Hcur.
  - unfold Merge.mergeConfig in Hm. simpl in Hm. by simplify_eq.
  - unfold Merge.mergeConfig in *. simpl in Hm.
    destruct (Merge.configStep cur kv) as [cur'| |] eqn:Hs; [|done..].
    apply (IH cur'); [done|]. destruct Hcur as [g ->].
    unfold Merge.configStep, GoMap.assign, GoMap.del in Hs.
    destruct (GoString.firstIsDash _) as [[]|]; simplify_eq; eauto.
Qed.

Lemma mergeHeaders_nonnil l cur x :
  Merge.mergeHeaders l cur = Val x → is_Some cur → is_Some x.
Proof.
  revert cur. induction l as [|kv l IH]; intros cur Hm Hcur.
  - unfold Merge.mergeHeaders in Hm. simpl in Hm. by simplify_eq.
  - unfold Merge.mergeHeaders in *. simpl in Hm.
    destruct (Merge.headersStep cur kv) as [cur'| |] eqn:Hs; [|done..].
    apply (IH cur'); [done|]. destruct Hcur as [g ->].
    unfold Merge.headersStep, GoMap.assign, GoMap.del in Hs.
    destruct (GoString.firstIsDash _) as [[]|]; simplify_eq; eauto.
Qed.

(** The loops change the two maps and nothing else, and leave them
    non-nil. *)
Lemma mergeMaps_fields o route r route' :
  mergeMaps o route r = Val route' →
  Path route' = Path route ∧ Image route' = Image route ∧
  Memory route' = Memory route ∧ Type_ route' = Type_ route ∧
  Format route' = Format route ∧
  MaxConcurrency route' = MaxConcurrency route ∧
  Timeout route' = Timeout route ∧
  (is_Some (Config route) → is_Some (Config route')) ∧
  (is_Some (Headers route) → is_Some (Headers route')).
Proof.
  unfold mergeMaps. intros H.
  destruct (Config r) as [d|]; destruct (Headers r) as [h|]; simpl in H.
  - destruct (Merge.mergeConfig _ _) as [cfg| |] eqn:Hc; simpl in H; [|done..].
    destruct (Merge.mergeHeaders _ _) as [hdr| |] eqn:Hh; simpl in H; [|done..].
    simplify_eq. simpl in *. repeat split; try done.
    + intros ?. by eapply mergeConfig_nonnil.
    + intros ?. by eapply mergeHeaders_nonnil.
  - destruct (Merge.mergeConfig _ _) as [cfg| |] eqn:Hc; simpl in H; [|done..].
    simplify_eq. simpl. repeat split; try done.
    intros ?. by eapply mergeConfig_nonnil.
  - destruct (Merge.mergeHeaders _ _) as [hdr| |] eqn:Hh; simpl in H; [|done..].
    simplify_eq. simpl. repeat split; try done.
    intros ?. by eapply mergeHeaders_nonnil.
  - by simplify_eq.
Qed.

Lemma overwriteScalars_maps route r :
  Path (overwriteScalars route r) = Path route ∧
  Config (overwriteScalars route r) = Config route ∧
  Headers (overwriteScalars route r) = Headers route.
Proof.
  unfold overwriteScalars.
  destruct (decide (Image r = "")), (decide (Format r = "")),
    (decide (Type_ r = "")), (0 <? MaxConcurrency r)%Z, (0 <? Memory r)%Z,
    (Timeout r); done.
Qed.

(** A delta with an empty image leaves the image as it is. *)
Lemma overwriteScalars_empty_image route r :
  Image r = "" → Image (overwriteScalars route r) = Image route.
Proof.
  intros Hi. unfold overwriteScalars.
  destruct (decide (Image r = "")); [|done].
  destruct (decide (Format r = "")), (decide (Type_ r = "")),
    (0 <? MaxConcurrency r)%Z, (0 <? Memory r)%Z, (Timeout r); reflexivity.
Qed.

(** The loops return when the fetched maps are non-nil and the delta has
    no empty key. *)
Lemma mergeMaps_total o route r :
  validOrder o → is_Some (Config route) → is_Some (Headers route) →
  (∀ d, Config r = Some d → noEmptyKey d) →
  (∀ d, Headers r = Some d → noEmptyKey d) →
  ∃ route', mergeMaps o route r = Val route'.
Proof.
  intros [Hco Hho] [cfg Hcfg] [hdr Hhdr] Hc Hh. unfold mergeMaps.
  destruct (Config r) as [d|]; simpl.
  - rewrite Hcfg, mergeConfig_ops
      by (eapply rangeOf_noEmptyKey; [apply Hco|by apply Hc]).
    simpl. destruct (Headers r) as [h|]; simpl; [|eauto].
    rewrite Hhdr, mergeHeaders_ops
      by (eapply rangeOf_noEmptyKey; [apply Hho|by apply Hh]).
    simpl. eauto.
  - destruct (Headers r) as [h|]; simpl; [|eauto].
    rewrite Hhdr, mergeHeaders_ops
      by (eapply rangeOf_noEmptyKey; [apply Hho|by apply Hh]).
    simpl. eauto.
Qed.

Lemma normalize_fields resp :
  Config (normalize resp) = Some (default ∅ (Config resp)) ∧
  Headers (normalize resp) = Some (default ∅ (Headers resp)) ∧
  Path (normalize resp) = "".
Proof.
  unfold normalize.
  destruct resp as [p i m t [c|] [h|] f mc to]; simpl; done.
Qed.

(** An empty key in the delta makes the loops panic. *)
Lemma mergeMaps_panic o route r :
  validOrder o → hasEmptyKey r → mergeMaps o route r = Panic.
Proof.
  intros [Hco Hho] [(d & Hd & He)|(d & Hd & He)]; unfold mergeMaps.
  - rewrite Hd. rewrite mergeConfig_panic; [done|].
    by apply (rangeOf_key d _ "" (Hco d)).
  - rewrite Hd.
    assert (Merge.mergeHeaders (headersOrder o d) (Headers route) = Panic)
      as Hp.
    { apply mergeHeaders_panic. by apply (rangeOf_key d _ "" (Hho d)). }
    destruct (Config r) as [c|]; simpl; [|by rewrite Hp].
    destruct (Merge.mergeConfig _ _) as [cfg| |] eqn:Hc; simpl.
    + by rewrite Hp.
    + by apply mergeConfig_no_Err in Hc.
    + done.
Qed.

End patch_facts.

(** C10.  The merge loops return exactly when no key of the delta is the
    empty string: with the empty string among the keys the loop panics at
    [k[0]], for every visiting order; and [patchRoute], after a successful
    fetch, panics on a delta with an empty config or headers key without
    having issued the replace call. *)
Theorem C10_empty_key_panics
    (delta cur : gmap string string) (l : list (string * string))
    (hdelta hcur : gmap string (list string)) (hl : list (string * list string))
    (a : routesCmd) (o : Order) (app path : string) (r resp : Route) :
  Merge.rangeOf delta l → Merge.rangeOf hdelta hl →
  validOrder o → GetAppsAppRoutesRoute (client a) app path = GetOK resp →
  hasEmptyKey r →
  ((∃ m', Merge.mergeConfig l (Some cur) = Val (Some m')) ↔ noEmptyKey delta) ∧
  (Merge.mergeConfig l (Some cur) = Panic ↔ ¬ noEmptyKey delta) ∧
  ((∃ m', Merge.mergeHeaders hl (Some hcur) = Val (Some m')) ↔ noEmptyKey hdelta) ∧
  (Merge.mergeHeaders hl (Some hcur) = Panic ↔ ¬ noEmptyKey hdelta) ∧
  patchRoute a o app path (Some r) = (Panic, [CallGet app path]) ∧
  noPatchCall (patchRoute a o app path (Some r)).2.
Proof.
  intros Hl Hhl Ho Hget Hempty.
  assert (¬ noEmptyKey delta → Merge.mergeConfig l (Some cur) = Panic) as Hcp.
  { intros He. apply mergeConfig_panic, (rangeOf_key delta l); [done|].
    unfold noEmptyKey in He. by apply not_eq_None_Some. }
  assert (¬ noEmptyKey hdelta → Merge.mergeHeaders hl (Some hcur) = Panic) as Hhp.
  { intros He. apply mergeHeaders_panic, (rangeOf_key hdelta hl); [done|].
    unfold noEmptyKey in He. by apply not_eq_None_Some. }
  assert (patchRoute a o app path (Some r) = (Panic, [CallGet app path])) as Hp.
  { unfold patchRoute. rewrite Hget. unfold applyDelta.
    by rewrite mergeMaps_panic. }
  repeat split.
  - intros [m' Hm']. destruct (decide (noEmptyKey delta)) as [|He]; [done|].
    rewrite (Hcp He) in Hm'. discriminate.
  - intros Hne. rewrite mergeConfig_ops by (by eapply rangeOf_noEmptyKey). eauto.
  - intros Hpanic Hne.
    rewrite mergeConfig_ops in Hpanic by (by eapply rangeOf_noEmptyKey).
    discriminate.
  - done.
  - intros [m' Hm']. destruct (decide (noEmptyKey hdelta)) as [|He]; [done|].
    rewrite (Hhp He) in Hm'. discriminate.
  - intros Hne. rewrite mergeHeaders_ops by (by eapply rangeOf_noEmptyKey). eauto.
  - intros Hpanic Hne.
    rewrite mergeHeaders_ops in Hpanic by (by eapply rangeOf_noEmptyKey).
    discriminate.
  - done.
  - done.
  - rewrite Hp. intros app' route' body Hin. simpl in Hin.
    apply list_elem_of_singleton in Hin. discriminate.
Qed.

Lemma C10_empty_key_panics_witness :
  Merge.mergeConfig [("", "x")] (Some ∅) = Panic ∧
  patchRoute (Sample.stub (GetOK Sample.fetched) PatchOK) mapOrder
    "app" "/hello"
    (Some (mkRoute "" "" 0 "" (Some Sample.emptyKey) None "" 0 None))
  = (Panic, [CallGet "app" "/hello"]).
Proof.
  pose proof (C10_empty_key_panics Sample.emptyKey ∅ [("", "x")]
                {[ "" := ["y"] ]} ∅ [("", ["y"])]
                (Sample.stub (GetOK Sample.fetched) PatchOK) mapOrder
                "app" "/hello"
                (mkRoute "" "" 0 "" (Some Sample.emptyKey) None "" 0 None)
                Sample.fetched) as H.
  destruct H as (_ & Hc & _ & _ & Hp & _).
  - unfold Merge.rangeOf. vm_compute map_to_list. reflexivity.
  - unfold Merge.rangeOf. vm_compute map_to_list. reflexivity.
  - apply validOrder_mapOrder.
  - reflexivity.
  - left. exists Sample.emptyKey. split; [reflexivity|]. by eexists.
  - split; [|exact Hp]. apply Hc. unfold noEmptyKey. vm_compute. discriminate.
Defined.

(** C7.  After a successful fetch, the route on which the merge starts has
    non-nil config and headers maps (the fetched ones, or empty maps where
    the fetched route had none) and an empty path; and every replace call
    that [patchRoute] issues carries a body with an empty path and non-nil
    maps. *)
Theorem C7_payload_invariant
    (a : routesCmd) (o : Order) (app path : string) (r : option Route)
    (resp : Route) :
  GetAppsAppRoutesRoute (client a) app path = GetOK resp →
  Config (normalize resp) = Some (default ∅ (Config resp)) ∧
  Headers (normalize resp) = Some (default ∅ (Headers resp)) ∧
  Path (normalize resp) = "" ∧
  patchRoute a o app path r =
    match (match r with
           | None => Val (normalize resp)
           | Some r => applyDelta o (normalize resp) r
           end) with
    | Val body =>
        (patchError (PatchAppsAppRoutesRoute (client a) app path body),
         [CallGet app path; CallPatch app path body])
    | Err msg => (Err msg, [CallGet app path])
    | Panic => (Panic, [CallGet app path])
    end ∧
  ∀ app' path' body,
    CallPatch app' path' body ∈ (patchRoute a o app path r).2 →
    Path body = "" ∧ is_Some (Config body) ∧ is_Some (Headers body).
Proof.
  intros Hget. destruct (normalize_fields resp) as (Hc & Hh & Hp).
  split; [done|]. split; [done|]. split; [done|].
  split; [unfold patchRoute; by rewrite Hget|].
  intros app' path' body. unfold patchRoute. rewrite Hget.
  destruct r as [r|].
  - unfold applyDelta.
    destruct (mergeMaps o (normalize resp) r) as [route'| |] eqn:Hm; simpl.
    + rewrite !elem_of_cons. intros [|[[= _ _ Hb]|Hnil]]; [done| |].
      2: { by apply elem_of_nil in Hnil. }
      subst body.
      apply mergeMaps_fields in Hm as (HP & _ & _ & _ & _ & _ & _ & HC & HH).
      destruct (overwriteScalars_maps route' r) as (-> & -> & ->).
      rewrite HP, Hp. split; [done|]. split; [apply HC|apply HH].
      * rewrite Hc. eauto.
      * rewrite Hh. eauto.
    + intros Hin. apply list_elem_of_singleton in Hin. discriminate.
    + intros Hin. apply list_elem_of_singleton in Hin. discriminate.
  - simpl. rewrite !elem_of_cons. intros [|[[= _ _ Hb]|Hnil]]; [done| |].
    2: { by apply elem_of_nil in Hnil. }
    subst body. rewrite Hc, Hh, Hp. eauto.
Qed.

Lemma C7_payload_invariant_witness :
  Config (normalize (mkRoute "/hello" "img" 128 "sync" None None "" 1 None))
  = Some ∅ ∧
  Headers (normalize (mkRoute "/hello" "img" 128 "sync" None None "" 1 None))
  = Some ∅ ∧
  Path (normalize (mkRoute "/hello" "img" 128 "sync" None None "" 1 None)) = "" ∧
  patchRoute
    (Sample.stub (GetOK (mkRoute "/hello" "img" 128 "sync" None None "" 1 None))
       PatchOK)
    mapOrder "app" "/hello" None
  = (Val (),
     [CallGet "app" "/hello";
      CallPatch "app" "/hello"
        (mkRoute "" "img" 128 "sync" (Some ∅) (Some ∅) "" 1 None)]).
Proof.
  destruct (C7_payload_invariant
              (Sample.stub
                 (GetOK (mkRoute "/hello" "img" 128 "sync" None None "" 1 None))
                 PatchOK)
              mapOrder "app" "/hello" None
              (mkRoute "/hello" "img" 128 "sync" None None "" 1 None))
    as (Hc & Hh & Hp & Hrun & _).
  - reflexivity.
  - split; [exact Hc|]. split; [exact Hh|]. split; [exact Hp|exact Hrun].
Defined.

(** C8.  When the fetch fails, [patchRoute] returns an error and its only
    request is the fetch, so the replace call is never issued: a not-found
    error is returned as [error: ] followed by the remote message, and any
    other fetch error as [unexpected error: ] followed by its message. *)
Theorem C8_fetch_failure
    (a : routesCmd) (o : Order) (app path : string) (r : option Route) :
  (∀ resp, GetAppsAppRoutesRoute (client a) app path ≠ GetOK resp) →
  ∃ msg,
    patchRoute a o app path r = (Err msg, [CallGet app path]) ∧
    noPatchCall (patchRoute a o app path r).2 ∧
    match GetAppsAppRoutesRoute (client a) app path with
    | GetOK _ => False
    | GetAppsAppRoutesRouteNotFound m => msg = "error: " +:+ m
    | GetAppsAppRoutesDefault m => msg = "unexpected error: " +:+ m
    | GetOtherError e => msg = "unexpected error: " +:+ e
    end.
Proof.
  intros Hfail. unfold patchRoute.
  assert (noPatchCall [CallGet app path]) as Hno.
  { intros app' route' body Hin. apply list_elem_of_singleton in Hin.
    discriminate. }
  destruct (GetAppsAppRoutesRoute (client a) app path) as [resp|m|m|e] eqn:Hget.
  - by destruct (Hfail resp).
  - eexists. split; [done|]. split; [exact Hno|done].
  - eexists. split; [done|]. split; [exact Hno|done].
  - eexists. split; [done|]. split; [exact Hno|done].
Qed.

Lemma C8_fetch_failure_witness :
  ∃ msg,
    patchRoute (Sample.stub (GetAppsAppRoutesRouteNotFound "Route not found") PatchOK)
      mapOrder "app" "/hello" (Some Sample.dropHeader)
    = (Err msg, [CallGet "app" "/hello"]) ∧
    msg = "error: Route not found".
Proof.
  destruct (C8_fetch_failure
              (Sample.stub (GetAppsAppRoutesRouteNotFound "Route not found") PatchOK)
              mapOrder "app" "/hello" (Some Sample.dropHeader))
    as (msg & Hrun & _ & Hmsg).
  - intros resp. simpl. discriminate.
  - exists msg. split; [exact Hrun|exact Hmsg].
Defined.

(** C5 fails as stated: a delta that carries a timeout of zero overwrites
    the fetched timeout of 30 seconds with 0, and [update] without a
    timeout flag and without a timeout in the function file submits such a
    delta. *)
Lemma C5_counterexample :
  Timeout Sample.fetched = Some 30%Z ∧
  (∃ body,
     patchRoute (Sample.stub (GetOK Sample.fetched) PatchOK) mapOrder
       "app" "/hello" (Some Sample.zeroTimeout)
     = (Val (), [CallGet "app" "/hello"; CallPatch "app" "/hello" body]) ∧
     Timeout body = Some 0%Z) ∧
  (∃ body,
     update (Sample.stub (GetOK Sample.fetched) PatchOK)
       (Sample.env (Some Sample.funcfile, None)) mapOrder Sample.updateNoImage
     = (Val (), [CallGet "app" "/hello"; CallPatch "app" "/hello" body]) ∧
     Timeout body = Some 0%Z).
Proof.
  split; [reflexivity|]. split.
  - eexists. split; [vm_compute; reflexivity|reflexivity].
  - eexists. split; [vm_compute; reflexivity|reflexivity].
Qed.

(** C5 (amended).  When the fetched maps are non-nil and the delta has no
    empty key, the merge of a delta returns a route in which image, format
    and type are the delta's when the delta's value is non-empty and the
    fetched ones otherwise; max-concurrency and memory are the delta's when
    the delta's value is positive and the fetched ones otherwise; and the
    timeout is the delta's whenever the delta carries a timeout, zero
    included, and the fetched one only when the delta carries none. *)
Theorem C5_scalar_overwrite (o : Order) (route r : Route) :
  validOrder o → is_Some (Config route) → is_Some (Headers route) →
  (∀ d, Config r = Some d → noEmptyKey d) →
  (∀ d, Headers r = Some d → noEmptyKey d) →
  ∃ body, applyDelta o route r = Val body ∧
    overwrittenWhen (Image r ≠ "") (Image r) (Image route) (Image body) ∧
    overwrittenWhen (Format r ≠ "") (Format r) (Format route) (Format body) ∧
    overwrittenWhen (Type_ r ≠ "") (Type_ r) (Type_ route) (Type_ body) ∧
    overwrittenWhen (0 < MaxConcurrency r)%Z (MaxConcurrency r)
      (MaxConcurrency route) (MaxConcurrency body) ∧
    overwrittenWhen (0 < Memory r)%Z (Memory r) (Memory route) (Memory body) ∧
    overwrittenWhen (is_Some (Timeout r)) (Timeout r) (Timeout route)
      (Timeout body).
Proof.
  intros Ho Hc Hh Hkc Hkh.
  destruct (mergeMaps_total o route r Ho Hc Hh Hkc Hkh) as [route' Hm].
  exists (overwriteScalars route' r). split.
  { unfold applyDelta. by rewrite Hm. }
  apply mergeMaps_fields in Hm as (_ & <- & <- & <- & <- & <- & <- & _ & _).
  unfold overwrittenWhen, overwriteScalars.
  destruct (decide (Image r = "")) as [Hi|Hi],
    (decide (Format r = "")) as [Hf|Hf],
    (decide (Type_ r = "")) as [Ht|Ht],
    (0 <? MaxConcurrency r)%Z eqn:Hmc, (0 <? Memory r)%Z eqn:Hmem,
    (Timeout r) as [to|] eqn:Hto; simpl;
    try apply Z.ltb_lt in Hmc; try apply Z.ltb_ge in Hmc;
    try apply Z.ltb_lt in Hmem; try apply Z.ltb_ge in Hmem;
    repeat split; intros; try done; try lia;
    try (exfalso; by eapply is_Some_None);
    try (exfalso; eauto).
Qed.

Lemma C5_scalar_overwrite_witness :
  ∃ body, applyDelta mapOrder (normalize Sample.fetched) Sample.zeroTimeout
          = Val body ∧
          Image body = "me/hello:0.0.1" ∧ Timeout body = Some 0%Z.
Proof.
  destruct (C5_scalar_overwrite mapOrder (normalize Sample.fetched)
              Sample.zeroTimeout)
    as (body & Hrun & [_ Hi] & _ & _ & _ & _ & [Hto _]).
  - apply validOrder_mapOrder.
  - by eexists.
  - by eexists.
  - intros d. simpl. discriminate.
  - intros d. simpl. discriminate.
  - exists body. split; [exact Hrun|]. split.
    + apply Hi. simpl. intros Hne. by apply Hne.
    + apply Hto. simpl. by eexists.
Defined.

(** ** [config set] and [config unset] on a sample route *)

(** [fn routes config set app /hello a 1] on a route with config
    [{k = v}] submits [{a = 1, k = v}]. *)
Example configSet_adds_key :
  configSet (Sample.stub (GetOK Sample.fetched) PatchOK) mapOrder
    (mkContext ["app"; "/hello"; "a"; "1"] 0 "" [] [] "" 0 0)
  = (Val (),
     [CallGet "app" "/hello";
      CallPatch "app" "/hello"
        (mkRoute "" "me/hello:0.0.1" 128 "sync"
           (Some {[ "a" := "1"; "k" := "v" ]})
           (Some {[ "X-Trace" := ["on"] ]}) "" 1 (Some 30%Z))]).
Proof. vm_compute. reflexivity. Qed.

(** [fn routes config unset app /hello k] on the same route submits the
    empty config. *)
Example configUnset_removes_key :
  configUnset (Sample.stub (GetOK Sample.fetched) PatchOK) mapOrder
    (mkContext ["app"; "/hello"; "k"] 0 "" [] [] "" 0 0)
  = (Val (),
     [CallGet "app" "/hello";
      CallPatch "app" "/hello"
        (mkRoute "" "me/hello:0.0.1" 128 "sync" (Some ∅)
           (Some {[ "X-Trace" := ["on"] ]}) "" 1 (Some 30%Z))]).
Proof. vm_compute. reflexivity. Qed.

(** [fn routes config set app /hello "" x] reaches the config loop with the
    empty key. *)
Example configSet_empty_key_panics :
  configSet (Sample.stub (GetOK Sample.fetched) PatchOK) mapOrder
    (mkContext ["app"; "/hello"; ""; "x"] 0 "" [] [] "" 0 0)
  = (Panic, [CallGet "app" "/hello"]).
Proof. vm_compute. reflexivity. Qed.

(** [--headers] literals: [name=v1;v2] gives an entry, a literal without
    [=] panics. *)
Example parseHeaders_literal :
  parseHeaders ["X-Trace=on;verbose"; "-Y="] ∅
  = Val {[ "X-Trace" := ["on"; "verbose"]; "-Y" := [""] ]}.
Proof. vm_compute. reflexivity. Qed.

Example parseHeaders_no_equals : parseHeaders ["X-Trace"] ∅ = Panic.
Proof. reflexivity. Qed.

(** ** [update] and [create] *)

(** C3.  [update] resolves the image against its own comment (flags take
    precedence): without an image argument the function file's full name
    is not used and the delta's image stays empty, and with an image
    argument the function file's full name replaces it, because line 484
    tests [image != ""] where [create] (line 295) tests [image == ""]. *)
Theorem C3_update_image_precedence_inverted :
  (∃ delta,
     updateDelta (Sample.env (Some Sample.funcfile, None)) Sample.updateNoImage
     = Val ("app", "/hello", delta) ∧
     Image delta = "") ∧
  (∃ delta,
     updateDelta (Sample.env (Some Sample.funcfile, None)) Sample.updateWithImage
     = Val ("app", "/hello", delta) ∧
     Image delta = "me/hello:0.0.1").
Proof.
  split; eexists; (split; [vm_compute; reflexivity|reflexivity]).
Qed.

(** C4 fails as stated: [update] with no image argument and no function
    file returns the image-missing error and issues no request. *)
Lemma C4_counterexample :
  argsGet Sample.updateNoImage 2 = "" ∧
  update (Sample.stub (GetOK Sample.fetched) PatchOK)
    (Sample.env (None, Some (notFoundError "no func file")))
    mapOrder Sample.updateNoImage
  = (Err "error: image name is missing or no function file found", []).
Proof. split; reflexivity. Qed.

(** C4 (amended).  With an empty image argument and no function file,
    [update] fails with the same image-missing error as [create], before
    any request.  The two differ when a function file is found that gives
    no image name: [create] fails with [function image name is missing],
    while [update] has no such check and hands [patchRoute] a delta with an
    empty image, which leaves the fetched image as it is. *)
Theorem C4_missing_image
    (a : routesCmd) (e : Env) (o : Order) (c : Context) :
  (2 ≤ length (Args c))%nat → argsGet c 2 = "" →
  ((∃ text, (loadFuncfile e).2 = Some (notFoundError text)) →
   update a e o c
   = (Err "error: image name is missing or no function file found", []) ∧
   create a e c
   = (Err "error: image name is missing or no function file found", [])) ∧
  (∀ ff headers,
     loadFuncfile e = (Some ff, None) → Funcfile.FullName ff = "" →
     argsGet c 1 ≠ "" → parseHeaders (flagHeaders c) ∅ = Val headers →
     create a e c = (Err "error: function image name is missing", []) ∧
     ∃ delta,
       updateDelta e c = Val (argsGet c 0, argsGet c 1, delta) ∧
       Image delta = "" ∧
       update a e o c
       = patchRoute a o (argsGet c 0) (argsGet c 1) (Some delta) ∧
       ∀ route, Image (overwriteScalars route delta) = Image route).
Proof.
  intros Hlen Himg.
  assert ((length (Args c) <? 2)%nat = false) as Hlt by (by apply Nat.ltb_ge).
  split.
  - intros [text Herr]. unfold update, updateDelta, create, createBody.
    rewrite Hlt, Himg, Herr. simpl. split; reflexivity.
  - intros ff headers Hload Hname Hroute Hparse.
    split.
    + unfold create, createBody. rewrite Hlt, Himg, Hload. simpl.
      rewrite Hname. destruct (decide (argsGet c 1 = "")); [done|].
      simpl. destruct (decide (argsGet c 1 = "")); done.
    + unfold update, updateDelta. rewrite Hlt, Himg, Hload. simpl.
      destruct (decide (argsGet c 1 = "")); [done|]. rewrite Hparse. simpl.
      destruct (decide (argsGet c 1 = "")); [done|].
      eexists. split; [done|]. split; [done|]. split; [done|].
      intros route. by apply overwriteScalars_empty_image.
Qed.

Lemma C4_missing_image_witness :
  (update (Sample.stub (GetOK Sample.fetched) PatchOK)
     (Sample.env (None, Some (notFoundError "no func file")))
     mapOrder Sample.updateNoImage
   = (Err "error: image name is missing or no function file found", []) ∧
   create (Sample.stub (GetOK Sample.fetched) PatchOK)
     (Sample.env (None, Some (notFoundError "no func file")))
     Sample.updateNoImage
   = (Err "error: image name is missing or no function file found", [])) ∧
  create (Sample.stub (GetOK Sample.fetched) PatchOK)
    (Sample.env (Some Sample.unnamed, None)) Sample.updateNoImage
  = (Err "error: function image name is missing", []).
Proof.
  split.
  - apply (C4_missing_image (Sample.stub (GetOK Sample.fetched) PatchOK)
             (Sample.env (None, Some (notFoundError "no func file")))
             mapOrder Sample.updateNoImage).
    + simpl. lia.
    + reflexivity.
    + by eexists.
  - eapply (C4_missing_image (Sample.stub (GetOK Sample.fetched) PatchOK)
              (Sample.env (Some Sample.unnamed, None))
              mapOrder Sample.updateNoImage).
    + simpl. lia.
    + reflexivity.
    + reflexivity.
    + reflexivity.
    + simpl. discriminate.
    + reflexivity.
Defined.

(** C6 fails as stated: a flag that is not zero but negative does not win.
    With [--max-concurrency -2 --timeout -5s] against a function file with
    max-concurrency 4 and timeout 30s, the delta carries 4 and 30. *)
Lemma C6_counterexample :
  flagMaxConcurrency Sample.updateNegativeFlags ≠ 0%Z ∧
  flagTimeout Sample.updateNegativeFlags ≠ 0%Z ∧
  ∃ delta,
    updateDelta (Sample.env (Some Sample.tuned, None)) Sample.updateNegativeFlags
    = Val ("app", "/hello", delta) ∧
    MaxConcurrency delta = 4%Z ∧
    MaxConcurrency delta ≠ int32 (flagMaxConcurrency Sample.updateNegativeFlags) ∧
    Timeout delta = Some 30%Z ∧
    Timeout delta
    ≠ Some (durationSeconds (flagTimeout Sample.updateNegativeFlags)).
Proof.
  split; [by vm_compute|]. split; [by vm_compute|].
  eexists. split; [vm_compute; reflexivity|]. simpl.
  split; [reflexivity|]. split; [by vm_compute|].
  split; [reflexivity|]. by vm_compute.
Qed.


(** * Further properties of the code *)

(** ** [strings.Split] on one byte *)

Section split_facts.
Implicit Types (s p : string) (c : ascii) (l : list string).

Lemma Split_nonempty s c : GoString.Split s c ≠ [].
Proof.
  destruct s as [|b s]; simpl; [done|].
  destruct (Ascii.eqb b c); [done|]. by destruct (GoString.Split s c).
Qed.

Lemma Split_absent s c : containsByte c s = false → GoString.Split s c = [s].
Proof.
  induction s as [|b s IH]; simpl; [done|].
  intros [Hb Hs]%orb_false_iff. rewrite Hb, (IH Hs). done.
Qed.

Lemma Split_app s1 s2 c :
  containsByte c s1 = false →
  GoString.Split (s1 +:+ String c s2) c = s1 :: GoString.Split s2 c.
Proof.
  induction s1 as [|b s1 IH]; simpl.
  - intros _. by rewrite Ascii.eqb_refl.
  - intros [Hb Hs]%orb_false_iff. rewrite Hb, (IH Hs). done.
Qed.

Lemma Split_pieces s c :
  Forall (λ p, containsByte c p = false) (GoString.Split s c).
Proof.
  induction s as [|b s IH]; simpl; [by repeat constructor|].
  destruct (Ascii.eqb b c) eqn:Hb; [by constructor|].
  destruct (GoString.Split s c) as [|p ps].
  { repeat constructor. simpl. by rewrite Hb. }
  apply Forall_cons in IH as [Hp Hps]. constructor; [|done].
  simpl. by rewrite Hb, Hp.
Qed.

Lemma Split_length s c :
  (2 ≤ length (GoString.Split s c))%nat ↔ containsByte c s = true.
Proof.
  induction s as [|b s IH]; simpl; [split; [lia|done]|].
  destruct (Ascii.eqb b c) eqn:Hb; simpl.
  - pose proof (Split_nonempty s c).
    destruct (GoString.Split s c); [done|]. simpl. split; [done|lia].
  - rewrite <- IH. pose proof (Split_nonempty s c).
    by destruct (GoString.Split s c).
Qed.

Lemma containsByte_app c s1 s2 :
  containsByte c (s1 +:+ s2) = containsByte c s1 || containsByte c s2.
Proof.
  induction s1 as [|b s1 IH]; simpl; [done|]. by rewrite IH, orb_assoc.
Qed.

Lemma containsByte_joinWith c sep l :
  c ≠ sep → Forall (λ p, containsByte c p = false) l →
  containsByte c (joinWith sep l) = false.
Proof.
  intros Hne. induction l as [|p [|q l] IH]; intros Hl; [done|..].
  - by apply Forall_cons in Hl as [? _].
  - apply Forall_cons in Hl as [Hp Hl].
    change (joinWith sep (p :: q :: l))
      with (p +:+ String sep (joinWith sep (q :: l))).
    rewrite containsByte_app, Hp.
    change (containsByte c (String sep (joinWith sep (q :: l))))
      with (Ascii.eqb sep c || containsByte c (joinWith sep (q :: l))).
    rewrite (IH Hl), orb_false_r. simpl.
    apply Ascii.eqb_neq. congruence.
Qed.

(** Splitting what was joined gives the pieces back. *)
Lemma Split_joinWith c l :
  l ≠ [] → Forall (λ p, containsByte c p = false) l →
  GoString.Split (joinWith c l) c = l.
Proof.
  induction l as [|p [|q l] IH]; intros Hne Hl; [done|..].
  - apply Forall_cons in Hl as [Hp _]. simpl. by apply Split_absent.
  - apply Forall_cons in Hl as [Hp Hl].
    change (joinWith c (p :: q :: l)) with (p +:+ String c (joinWith c (q :: l))).
    rewrite Split_app by done. by rewrite IH.
Qed.

(** Joining the pieces of a split gives the string back. *)
Lemma joinWith_Split s c : joinWith c (GoString.Split s c) = s.
Proof.
  induction s as [|b s IH]; simpl; [done|].
  pose proof (Split_nonempty s c) as Hne.
  destruct (Ascii.eqb b c) eqn:Hb.
  - apply Ascii.eqb_eq in Hb. subst b.
    destruct (GoString.Split s c) as [|p ps]; [done|].
    rewrite <- IH. reflexivity.
  - destruct (GoString.Split s c) as [|p [|q ps]]; [done|..];
      rewrite <- IH; reflexivity.
Qed.

End split_facts.

(** ** [--headers] literals (lines 517-521 of [update]) *)

Section header_literals.
Implicit Types (h : gmap string (list string)) (literals : list string).

Lemma parseHeaders_cons_ok lit literals h name value rest :
  GoString.Split lit "=" = name :: value :: rest →
  parseHeaders (lit :: literals) h
  = parseHeaders literals (<[name := GoString.Split value ";"]> h).
Proof. intros Hs. simpl. by rewrite Hs. Qed.

Lemma parseHeaders_cons_literal entry literals h :
  expressible entry →
  parseHeaders (headerLiteral entry :: literals) h
  = parseHeaders literals (<[entry.1 := entry.2]> h).
Proof.
  intros (Hname & Hne & Hvals). unfold headerLiteral.
  erewrite parseHeaders_cons_ok.
  2: { rewrite Split_app by done. rewrite Split_absent; [done|].
       apply containsByte_joinWith; [done|].
       eapply Forall_impl; [exact Hvals|]. by intros v [_ ?]. }
  rewrite Split_joinWith; [done..|].
  eapply Forall_impl; [exact Hvals|]. by intros v [? _].
Qed.

Lemma foldl_insert_list_to_map (entries : list (string * list string)) h :
  foldl (λ h e, <[e.1 := e.2]> h) h entries
  = foldr (λ e h, <[e.1 := e.2]> h) h (reverse entries).
Proof.
  revert h. induction entries as [|e entries IH]; intros h; [done|].
  simpl. rewrite IH, reverse_cons, foldr_app. done.
Qed.

End header_literals.

(** X1.  A [--headers] flag list makes [update]'s parsing loop panic exactly
    when one of the literals has no [=]; otherwise the loop returns a map. *)
Theorem parseHeaders_panics_iff_literal_without_equals
    (literals : list string) (h : gmap string (list string)) :
  (parseHeaders literals h = Panic
   ↔ Exists (λ lit, containsByte "=" lit = false) literals) ∧
  ((∃ h', parseHeaders literals h = Val h')
   ↔ Forall (λ lit, containsByte "=" lit = true) literals).
Proof.
  revert h. induction literals as [|lit literals IH]; intros h.
  { simpl. split; split; try done.
    - by intros ?%Exists_nil.
    - intros _. eauto. }
  destruct (containsByte "=" lit) eqn:Hc.
  - pose proof (proj2 (Split_length lit "=") Hc) as Hlen.
    destruct (GoString.Split lit "=") as [|name [|value rest]] eqn:Hs;
      simpl in Hlen; [lia..|].
    rewrite (parseHeaders_cons_ok _ _ _ _ _ _ Hs).
    destruct (IH (<[name := GoString.Split value ";"]> h)) as [IH1 IH2].
    split.
    + rewrite IH1, Exists_cons. split; [by right|].
      intros [Hbad|?]; [congruence|done].
    + rewrite IH2, Forall_cons. tauto.
  - assert (parseHeaders (lit :: literals) h = Panic) as ->.
    { simpl. pose proof (Split_absent lit "=" Hc) as ->. done. }
    split.
    + split; [|done]. intros _. by left.
    + split; [by intros [? ?]|]. intros [Hbad _]%Forall_cons. congruence.
Qed.

(** X2.  Rendering header entries as literals and parsing them gives the
    entries back: for entries that a literal can express, the parsed map
    holds, for every name, the values of the last entry with that name. *)
Theorem parseHeaders_of_literals (entries : list (string * list string)) :
  Forall expressible entries →
  parseHeaders (headerLiteral <$> entries) ∅
  = Val (list_to_map (reverse entries)).
Proof.
  intros Hall.
  assert (∀ h, parseHeaders (headerLiteral <$> entries) h
               = Val (foldl (λ h e, <[e.1 := e.2]> h) h entries)) as H.
  { induction Hall as [|e entries He _ IH]; intros h; [done|].
    rewrite fmap_cons, parseHeaders_cons_literal by done. apply IH. }
  rewrite H, foldl_insert_list_to_map. done.
Qed.

Lemma parseHeaders_of_literals_witness :
  parseHeaders
    (headerLiteral <$> [("X-Trace", ["on"; "verbose"]); ("Accept", [""]);
                        ("X-Trace", ["off"])]) ∅
  = Val (list_to_map
           (reverse [("X-Trace", ["on"; "verbose"]); ("Accept", [""]);
                     ("X-Trace", ["off"])])).
Proof.
  apply parseHeaders_of_literals.
  repeat constructor; simpl; done.
Defined.

(** X3.  A literal with a second [=] loses what follows it: the entry is
    the name and the split of the text between the first two [=]. *)
Theorem parseHeaders_second_equals_truncates
    (name value rest : string) (literals : list string)
    (h : gmap string (list string)) :
  containsByte "=" name = false → containsByte "=" value = false →
  parseHeaders ((name +:+ String "=" (value +:+ String "=" rest)) :: literals) h
  = parseHeaders literals (<[name := GoString.Split value ";"]> h).
Proof.
  intros Hn Hv.
  pose proof (Split_nonempty rest "=") as Hne.
  destruct (GoString.Split rest "=") as [|r rs] eqn:Hr; [done|].
  eapply parseHeaders_cons_ok.
  rewrite Split_app by done. rewrite Split_app by done. by rewrite Hr.
Qed.

Lemma parseHeaders_second_equals_truncates_witness :
  parseHeaders ["Link=a;b=c;d"] ∅ = Val {[ "Link" := ["a"; "b"] ]}.
Proof.
  exact (parseHeaders_second_equals_truncates "Link" "a;b" "c;d" [] ∅
           eq_refl eq_refl).
Defined.

(** X4.  Every entry of a parsed header map has a name without [=], at
    least one value, and no [;] in a value. *)
Theorem parseHeaders_entries_wellformed
    (literals : list string) (h : gmap string (list string)) :
  parseHeaders literals ∅ = Val h →
  ∀ name values, h !! name = Some values →
    containsByte "=" name = false ∧ values ≠ [] ∧
    Forall (λ v, containsByte ";" v = false) values.
Proof.
  set (good := λ (name : string) (values : list string),
         containsByte "=" name = false ∧ values ≠ [] ∧
         Forall (λ v, containsByte ";" v = false) values).
  assert (∀ h0 h', map_Forall good h0 → parseHeaders literals h0 = Val h' →
                   map_Forall good h') as Hinv.
  { induction literals as [|lit literals IH]; intros h0 h' Hgood Hrun.
    - simpl in Hrun. by simplify_eq.
    - simpl in Hrun.
      destruct (GoString.Split lit "=") as [|name [|value rest]] eqn:Hs;
        [done..|].
      eapply IH; [|exact Hrun]. apply map_Forall_insert_2; [|done].
      pose proof (Split_pieces lit "=") as Hp. rewrite Hs in Hp.
      apply Forall_cons in Hp as [Hname _].
      split; [done|]. split; [apply Split_nonempty|apply Split_pieces]. }
  intros Hrun name values Hlook.
  exact (Hinv ∅ h (map_Forall_empty _) Hrun name values Hlook).
Qed.

Lemma parseHeaders_entries_wellformed_witness :
  containsByte "=" "X-Trace" = false ∧ ["on"; "verbose"] ≠ [] ∧
  Forall (λ v, containsByte ";" v = false) ["on"; "verbose"].
Proof.
  apply (parseHeaders_entries_wellformed ["X-Trace=on;verbose"]
           {[ "X-Trace" := ["on"; "verbose"] ]}).
  - vm_compute. reflexivity.
  - reflexivity.
Defined.

(** ** [patchRoute] as a whole *)

Section patch_whole.

Lemma Route_eq (x y : Route) :
  Path x = Path y → Image x = Image y → Memory x = Memory y →
  Type_ x = Type_ y → Config x = Config y → Headers x = Headers y →
  Format x = Format y → MaxConcurrency x = MaxConcurrency y →
  Timeout x = Timeout y → x = y.
Proof. destruct x, y; simpl; intros; by subst. Qed.

Lemma normalize_id (x : Route) :
  Path x = "" → is_Some (Config x) → is_Some (Headers x) → normalize x = x.
Proof.
  destruct x as [p i m t c h f mc to]; simpl.
  intros -> [c' ->] [h' ->]. reflexivity.
Qed.

Lemma overwriteScalars_scalars (x r : Route) :
  Image (overwriteScalars x r)
  = (if decide (Image r = "") then Image x else Image r) ∧
  Format (overwriteScalars x r)
  = (if decide (Format r = "") then Format x else Format r) ∧
  Type_ (overwriteScalars x r)
  = (if decide (Type_ r = "") then Type_ x else Type_ r) ∧
  MaxConcurrency (overwriteScalars x r)
  = (if (0 <? MaxConcurrency r)%Z then MaxConcurrency r else MaxConcurrency x) ∧
  Memory (overwriteScalars x r)
  = (if (0 <? Memory r)%Z then Memory r else Memory x) ∧
  Timeout (overwriteScalars x r)
  = (match Timeout r with Some _ => Timeout r | None => Timeout x end).
Proof.
  unfold overwriteScalars.
  destruct (decide (Image r = "")), (decide (Format r = "")),
    (decide (Type_ r = "")), (0 <? MaxConcurrency r)%Z, (0 <? Memory r)%Z,
    (Timeout r); simpl; repeat split; reflexivity.
Qed.

(** Overwriting the scalars twice is overwriting them once. *)
Lemma overwriteScalars_twice (x r : Route) :
  overwriteScalars (overwriteScalars x r) r = overwriteScalars x r.
Proof.
  destruct (overwriteScalars_maps (overwriteScalars x r) r) as (HP & HC & HH).
  destruct (overwriteScalars_scalars (overwriteScalars x r) r)
    as (HI & HF & HT & HM & HMe & HTo).
  apply Route_eq; try done.
  - rewrite HI. by destruct (decide (Image r = "")) as [e|e];
      [|rewrite (proj1 (overwriteScalars_scalars x r)), decide_False].
  - rewrite HMe. destruct (0 <? Memory r)%Z eqn:E; [|done].
    destruct (overwriteScalars_scalars x r) as (_ & _ & _ & _ & -> & _).
    by rewrite E.
  - rewrite HT. destruct (decide (Type_ r = "")) as [e|e]; [done|].
    destruct (overwriteScalars_scalars x r) as (_ & _ & -> & _).
    by rewrite decide_False.
  - rewrite HF. destruct (decide (Format r = "")) as [e|e]; [done|].
    destruct (overwriteScalars_scalars x r) as (_ & -> & _).
    by rewrite decide_False.
  - rewrite HM. destruct (0 <? MaxConcurrency r)%Z eqn:E; [|done].
    destruct (overwriteScalars_scalars x r) as (_ & _ & _ & -> & _).
    by rewrite E.
  - rewrite HTo. destruct (Timeout r) eqn:E; [|done].
    destruct (overwriteScalars_scalars x r) as (_ & _ & _ & _ & _ & ->).
    by rewrite E.
Qed.

(** The config loop gives the same result in every visiting order, when no
    key that is set comes with its own deletion key. *)
Lemma mergeConfig_order delta cur l1 l2 :
  Merge.rangeOf delta l1 → Merge.rangeOf delta l2 → noConflict delta →
  Merge.mergeConfig l1 (Some cur) = Merge.mergeConfig l2 (Some cur).
Proof.
  intros H1 H2 Hnc. destruct (decide (noEmptyKey delta)) as [Hne|He].
  - destruct (mergeConfig_closed delta cur l1 H1 Hne Hnc) as (m1 & -> & Hm1).
    destruct (mergeConfig_closed delta cur l2 H2 Hne Hnc) as (m2 & -> & Hm2).
    do 2 f_equal. apply map_eq. intros j. by rewrite Hm1, Hm2.
  - assert (is_Some (delta !! "")) as Hk.
    { unfold noEmptyKey in He. by apply not_eq_None_Some. }
    rewrite !mergeConfig_panic; [done|..].
    + by apply (rangeOf_key delta l2).
    + by apply (rangeOf_key delta l1).
Qed.

Lemma mergeHeaders_order delta cur l1 l2 :
  Merge.rangeOf delta l1 → Merge.rangeOf delta l2 →
  Merge.mergeHeaders l1 (Some cur) = Merge.mergeHeaders l2 (Some cur).
Proof.
  intros H1 H2. destruct (decide (noEmptyKey delta)) as [Hne|He].
  - destruct (mergeHeaders_closed delta cur l1 H1 Hne) as (m1 & -> & Hm1).
    destruct (mergeHeaders_closed delta cur l2 H2 Hne) as (m2 & -> & Hm2).
    do 2 f_equal. apply map_eq. intros j. by rewrite Hm1, Hm2.
  - assert (is_Some (delta !! "")) as Hk.
    { unfold noEmptyKey in He. by apply not_eq_None_Some. }
    rewrite !mergeHeaders_panic; [done|..].
    + by apply (rangeOf_key delta l2).
    + by apply (rangeOf_key delta l1).
Qed.

(** Merging a delta into the result of its own merge changes nothing. *)
Lemma mergeConfig_stable delta cur m1 l1 l2 :
  Merge.rangeOf delta l1 → Merge.rangeOf delta l2 → noConflict delta →
  Merge.mergeConfig l1 (Some cur) = Val (Some m1) →
  Merge.mergeConfig l2 (Some m1) = Val (Some m1).
Proof.
  intros H1 H2 Hnc Hrun.
  destruct (decide (noEmptyKey delta)) as [Hne|He].
  2: { rewrite mergeConfig_panic in Hrun; [done|].
       apply (rangeOf_key delta l1); [done|].
       unfold noEmptyKey in He. by apply not_eq_None_Some. }
  destruct (mergeConfig_closed delta cur l1 H1 Hne Hnc) as (m1' & Hr1 & Hm1).
  rewrite Hr1 in Hrun. simplify_eq.
  destruct (mergeConfig_closed delta m1 l2 H2 Hne Hnc) as (m2 & -> & Hm2).
  do 2 f_equal. apply map_eq. intros j. rewrite Hm2. unfold configMerged at 1.
  destruct (delta !! ("-" +:+ j)) eqn:E1;
    [rewrite Hm1; unfold configMerged; by rewrite E1|].
  destruct (GoString.firstIsDash j) as [[]|] eqn:E2;
    destruct (delta !! j) eqn:E3; try done;
    rewrite (Hm1 j); unfold configMerged; by rewrite E1, E2, ?E3.
Qed.

Lemma mergeHeaders_stable delta cur m1 l1 l2 :
  Merge.rangeOf delta l1 → Merge.rangeOf delta l2 →
  Merge.mergeHeaders l1 (Some cur) = Val (Some m1) →
  Merge.mergeHeaders l2 (Some m1) = Val (Some m1).
Proof.
  intros H1 H2 Hrun.
  destruct (decide (noEmptyKey delta)) as [Hne|He].
  2: { rewrite mergeHeaders_panic in Hrun; [done|].
       apply (rangeOf_key delta l1); [done|].
       unfold noEmptyKey in He. by apply not_eq_None_Some. }
  destruct (mergeHeaders_closed delta cur l1 H1 Hne) as (m1' & Hr1 & Hm1).
  rewrite Hr1 in Hrun. simplify_eq.
  destruct (mergeHeaders_closed delta m1 l2 H2 Hne) as (m2 & -> & Hm2).
  do 2 f_equal. apply map_eq. intros j. rewrite Hm2. unfold headersMerged at 1.
  destruct (GoString.firstIsDash j) as [[]|] eqn:E2;
    destruct (delta !! j) eqn:E3; try done;
    rewrite (Hm1 j); unfold headersMerged; by rewrite E2, ?E3.
Qed.

(** The two loops of [patchRoute] do not depend on the visiting orders. *)
Lemma mergeMaps_order o1 o2 route r :
  validOrder o1 → validOrder o2 →
  is_Some (Config route) → is_Some (Headers route) →
  (∀ delta, Config r = Some delta → noConflict delta) →
  mergeMaps o1 route r = mergeMaps o2 route r.
Proof.
  intros [Hc1 Hh1] [Hc2 Hh2] [cfg Hcfg] [hdr Hhdr] Hnc. unfold mergeMaps.
  assert (∀ x, match Headers r with
               | Some delta =>
                   bindRes (Merge.mergeHeaders (headersOrder o1 delta) (Some hdr))
                     (λ h, Val (withHeaders h x))
               | None => Val x
               end
               = match Headers r with
                 | Some delta =>
                     bindRes (Merge.mergeHeaders (headersOrder o2 delta) (Some hdr))
                       (λ h, Val (withHeaders h x))
                 | None => Val x
                 end) as Hh.
  { intros x. destruct (Headers r) as [delta|]; [|done].
    by rewrite (mergeHeaders_order delta hdr _ _ (Hh1 delta) (Hh2 delta)). }
  destruct (Config r) as [delta|]; simpl.
  - rewrite Hcfg.
    rewrite (mergeConfig_order delta cfg _ _ (Hc1 delta) (Hc2 delta))
      by (by apply Hnc).
    destruct (Merge.mergeConfig _ _); simpl; [|done..].
    rewrite Hhdr. apply Hh.
  - rewrite Hhdr. apply Hh.
Qed.

End patch_whole.

(** X5.  The result of [patchRoute] and the requests it issues do not
    depend on the order in which Go visits the keys of the delta's maps, as
    long as the config delta sets no key together with its own deletion
    key. *)
Theorem patchRoute_order_independent
    (a : routesCmd) (o1 o2 : Order) (app path : string) (r : option Route) :
  validOrder o1 → validOrder o2 →
  (∀ d delta, r = Some d → Config d = Some delta → noConflict delta) →
  patchRoute a o1 app path r = patchRoute a o2 app path r.
Proof.
  intros Ho1 Ho2 Hnc. unfold patchRoute.
  destruct (GetAppsAppRoutesRoute (client a) app path) as [resp| | |]; try done.
  destruct r as [d|]; [|done]. unfold applyDelta.
  destruct (normalize_fields resp) as (Hc & Hh & _).
  assert (mergeMaps o1 (normalize resp) d = mergeMaps o2 (normalize resp) d)
    as ->; [|done].
  apply mergeMaps_order; [done|done|..].
  - rewrite Hc. eauto.
  - rewrite Hh. eauto.
  - intros delta Hd. by eapply Hnc.
Qed.

Lemma patchRoute_order_independent_witness :
  patchRoute (Sample.stub (GetOK Sample.fetched) PatchOK) mapOrder
    "app" "/hello"
    (Some (mkRoute "" "" 0 "" (Some {[ "a" := "1"; "-k" := "" ]})
             (Some {[ "X" := ["1"]; "-Y" := [""] ]}) "" 0 None))
  = patchRoute (Sample.stub (GetOK Sample.fetched) PatchOK)
      (mkOrder (λ m, reverse (map_to_list m)) (λ m, reverse (map_to_list m)))
      "app" "/hello"
      (Some (mkRoute "" "" 0 "" (Some {[ "a" := "1"; "-k" := "" ]})
               (Some {[ "X" := ["1"]; "-Y" := [""] ]}) "" 0 None)).
Proof.
  apply patchRoute_order_independent.
  - apply validOrder_mapOrder.
  - split; intros m; unfold Merge.rangeOf; simpl; apply reverse_Permutation.
  - intros d delta [= <-] [= <-].
    apply (@bool_decide_unpack _ (noConflict_dec _)). vm_compute. exact I.
Defined.

(** X6.  The headers loop, on a delta without an empty key and in every
    visiting order, returns a map in which every key of the delta that does
    not start with a dash has the delta's values, every key of the delta
    that starts with a dash is itself absent, and every key that is not in
    the delta is as before; so the key without the dash is not touched. *)
Theorem mergeHeaders_postcondition
    (delta cur : gmap string (list string)) (l : list (string * list string)) :
  Merge.rangeOf delta l → noEmptyKey delta →
  ∃ m', Merge.mergeHeaders l (Some cur) = Val (Some m') ∧
    (∀ k v, delta !! k = Some v → ¬ isDeletionKey k → m' !! k = Some v) ∧
    (∀ k, is_Some (delta !! k) → isDeletionKey k → m' !! k = None) ∧
    (∀ j, delta !! j = None → m' !! j = cur !! j).
Proof.
  intros Hl Hne.
  destruct (mergeHeaders_closed delta cur l Hl Hne) as (m' & Hrun & Hm').
  exists m'. split; [done|]. unfold isDeletionKey. repeat split.
  - intros k v Hk Hnd. rewrite Hm'. unfold headersMerged. rewrite Hk.
    destruct (GoString.firstIsDash k) as [[]|] eqn:E; [done|done|].
    apply firstIsDash_None in E. subst k. unfold noEmptyKey in Hne. congruence.
  - intros k [v Hk] Hd. rewrite Hm'. unfold headersMerged. by rewrite Hd, Hk.
  - intros j Hj. rewrite Hm'. unfold headersMerged. rewrite Hj.
    by destruct (GoString.firstIsDash j) as [[]|].
Qed.

Lemma mergeHeaders_postcondition_witness :
  ∃ m', Merge.mergeHeaders [("-X", [""]); ("Y", ["1"])] (Some {[ "X" := ["0"] ]})
        = Val (Some m') ∧
        m' !! "Y" = Some ["1"] ∧ m' !! "-X" = None ∧ m' !! "X" = Some ["0"].
Proof.
  destruct (mergeHeaders_postcondition {[ "-X" := [""]; "Y" := ["1"] ]}
              {[ "X" := ["0"] ]} [("-X", [""]); ("Y", ["1"])])
    as (m' & Hrun & Hset & Hdel & Hkeep).
  - unfold Merge.rangeOf. vm_compute map_to_list. reflexivity.
  - reflexivity.
  - exists m'. split; [exact Hrun|]. split; [|split].
    + apply Hset; [reflexivity|]. unfold isDeletionKey. simpl. discriminate.
    + apply Hdel; [by eexists|reflexivity].
    + rewrite Hkeep; reflexivity.
Defined.

(** X7.  [patchRoute] removes no header: a header of the fetched route
    whose name does not start with a dash is in the body of every replace
    call, whatever the delta and the visiting order. *)
Theorem patchRoute_keeps_fetched_headers
    (a : routesCmd) (o : Order) (app path : string) (r : option Route)
    (resp : Route) (fetched : gmap string (list string))
    (name : string) (app' path' : string) (body : Route) :
  GetAppsAppRoutesRoute (client a) app path = GetOK resp →
  Headers resp = Some fetched → is_Some (fetched !! name) →
  GoString.firstIsDash name = Some false →
  CallPatch app' path' body ∈ (patchRoute a o app path r).2 →
  ∃ m, Headers body = Some m ∧ is_Some (m !! name).
Proof.
  intros Hget Hf Hname Hplain.
  assert (Headers (normalize resp) = Some fetched) as Hn.
  { destruct (normalize_fields resp) as (_ & -> & _). by rewrite Hf. }
  unfold patchRoute. rewrite Hget. destruct r as [d|].
  - unfold applyDelta.
    destruct (mergeMaps o (normalize resp) d) as [route'| |] eqn:Hm; simpl.
    2,3: intros Hin; apply list_elem_of_singleton in Hin; discriminate.
    rewrite !elem_of_cons. intros [|[[= _ _ Hb]|Hnil]]; [done| |].
    2: { by apply elem_of_nil in Hnil. }
    subst body. destruct (overwriteScalars_maps route' d) as (_ & _ & ->).
    unfold mergeMaps in Hm.
    assert (∀ x, Headers x = Some fetched →
              match Headers d with
              | Some delta =>
                  bindRes (Merge.mergeHeaders (headersOrder o delta) (Headers x))
                    (λ hdr, Val (withHeaders hdr x))
              | None => Val x
              end = Val route' →
              ∃ m, Headers route' = Some m ∧ is_Some (m !! name)) as Hstep.
    { intros x Hx Hrun. destruct (Headers d) as [delta|].
      - rewrite Hx in Hrun.
        destruct (Merge.mergeHeaders _ _) as [[m|]| |] eqn:Hmh;
          simpl in Hrun; simplify_eq.
        + exists m. split; [done|].
          by eapply mergeHeaders_keeps_plain_keys.
        + apply mergeHeaders_nonnil in Hmh as [? ?]; [done|by eexists].
      - simplify_eq. eauto. }
    destruct (Config d) as [delta|]; simpl in Hm.
    + destruct (Merge.mergeConfig _ _) as [cfg| |]; simpl in Hm; [|done..].
      by apply (Hstep (withConfig cfg (normalize resp))).
    + by apply (Hstep (normalize resp)).
  - simpl. rewrite !elem_of_cons. intros [|[[= _ _ Hb]|Hnil]]; [done| |].
    2: { by apply elem_of_nil in Hnil. }
    subst body. eauto.
Qed.

Lemma patchRoute_keeps_fetched_headers_witness :
  ∃ m, Headers (mkRoute "" "me/hello:0.0.1" 128 "sync" (Some {[ "k" := "v" ]})
                  (Some {[ "X-Trace" := ["on"] ]}) "" 1 (Some 30%Z)) = Some m ∧
       is_Some (m !! "X-Trace").
Proof.
  apply (patchRoute_keeps_fetched_headers
           (Sample.stub (GetOK Sample.fetched) PatchOK) mapOrder "app" "/hello"
           (Some Sample.dropHeader) Sample.fetched {[ "X-Trace" := ["on"] ]}
           "X-Trace" "app" "/hello").
  - reflexivity.
  - reflexivity.
  - by eexists.
  - reflexivity.
  - vm_compute. apply list_elem_of_further, list_elem_of_here.
Defined.

(** X8.  [patchRoute] issues the fetch first and at most one replace call,
    addressed to the application and path of the fetch; it reports success
    only when the replace call was issued and answered without error. *)
Theorem patchRoute_requests
    (a : routesCmd) (o : Order) (app path : string) (r : option Route) :
  ((patchRoute a o app path r).2 = [CallGet app path] ∧
   (patchRoute a o app path r).1 ≠ Val ()) ∨
  (∃ body,
     (patchRoute a o app path r).2
     = [CallGet app path; CallPatch app path body] ∧
     ((patchRoute a o app path r).1 = Val ()
      ↔ PatchAppsAppRoutesRoute (client a) app path body = PatchOK)).
Proof.
  unfold patchRoute.
  destruct (GetAppsAppRoutesRoute (client a) app path) as [resp| | |];
    try (left; split; simpl; [reflexivity|discriminate]).
  destruct (match r with
            | Some r0 => applyDelta o (normalize resp) r0
            | None => Val (normalize resp)
            end) as [body| |];
    try (left; split; simpl; [reflexivity|discriminate]).
  right. exists body. split; [reflexivity|]. simpl.
  destruct (PatchAppsAppRoutesRoute (client a) app path body); simpl;
    split; done.
Qed.

(** X9.  A delta that carries nothing (nil or empty maps, empty strings,
    no positive number, no timeout) is the same as no delta: the fetched
    route is submitted with its path cleared and nil maps made empty. *)
Theorem patchRoute_empty_delta
    (a : routesCmd) (o : Order) (app path : string) (d : Route) :
  validOrder o →
  (Config d = None ∨ Config d = Some ∅) →
  (Headers d = None ∨ Headers d = Some ∅) →
  Image d = "" → Format d = "" → Type_ d = "" →
  (MaxConcurrency d ≤ 0)%Z → (Memory d ≤ 0)%Z → Timeout d = None →
  patchRoute a o app path (Some d) = patchRoute a o app path None.
Proof.
  intros [Hco Hho] Hc Hh Hi Hf Ht Hmc Hmem Hto. unfold patchRoute.
  destruct (GetAppsAppRoutesRoute (client a) app path) as [resp| | |]; try done.
  assert (applyDelta o (normalize resp) d = Val (normalize resp)) as ->; [|done].
  assert (mergeMaps o (normalize resp) d = Val (normalize resp)) as Hm.
  { destruct (normalize_fields resp) as (HC & HH & HP).
    assert (configOrder o ∅ = []) as Hnil1.
    { apply Permutation_nil_r. rewrite <- (map_to_list_empty (A:=string)).
      apply Hco. }
    assert (headersOrder o ∅ = []) as Hnil2.
    { apply Permutation_nil_r. rewrite <- (map_to_list_empty (A:=list string)).
      apply Hho. }
    unfold mergeMaps.
    destruct Hc as [-> | ->], Hh as [-> | ->]; simpl;
      rewrite ?Hnil1, ?Hnil2; simpl; try done.
    all: f_equal; apply Route_eq; simpl; try done. }
  unfold applyDelta. rewrite Hm. simpl. f_equal.
  unfold overwriteScalars. rewrite Hi, Hf, Ht, Hto. simpl.
  assert ((0 <? MaxConcurrency d)%Z = false) as -> by (apply Z.ltb_ge; lia).
  assert ((0 <? Memory d)%Z = false) as -> by (apply Z.ltb_ge; lia).
  done.
Qed.

Lemma patchRoute_empty_delta_witness :
  patchRoute (Sample.stub (GetOK Sample.fetched) PatchOK) mapOrder
    "app" "/hello" (Some (mkRoute "" "" 0 "" (Some ∅) None "" 0 None))
  = patchRoute (Sample.stub (GetOK Sample.fetched) PatchOK) mapOrder
      "app" "/hello" None.
Proof.
  apply patchRoute_empty_delta; simpl; try reflexivity; try lia.
  - apply validOrder_mapOrder.
  - by right.
  - by left.
Defined.

(** The two loops, for a route whose maps are not nil. *)
Lemma mergeMaps_unfold o route d cfg hdr :
  Config route = Some cfg → Headers route = Some hdr →
  mergeMaps o route d
  = bindRes
      (match Config d with
       | None => Val (Some cfg)
       | Some delta => Merge.mergeConfig (configOrder o delta) (Some cfg)
       end)
      (λ c',
         bindRes
           (match Headers d with
            | None => Val (Some hdr)
            | Some delta => Merge.mergeHeaders (headersOrder o delta) (Some hdr)
            end)
           (λ h', Val (withHeaders h' (withConfig c' route)))).
Proof.
  intros Hc Hh. unfold mergeMaps. rewrite Hc.
  destruct (Config d) as [cdelta|]; simpl.
  - destruct (Merge.mergeConfig _ _) as [c'| |]; simpl; [|done..].
    rewrite Hh. destruct (Headers d) as [hdelta|]; simpl.
    + by destruct (Merge.mergeHeaders _ _).
    + f_equal. apply Route_eq; simpl; done.
  - rewrite Hh. destruct (Headers d) as [hdelta|]; simpl.
    + destruct (Merge.mergeHeaders _ _) as [h'| |]; simpl; [|done..].
      f_equal. apply Route_eq; simpl; done.
    + f_equal. apply Route_eq; simpl; done.
Qed.

(** X10.  Patching a route again with the same delta changes nothing: when
    a delta (whose config sets no key together with its own deletion key)
    merged into a fetched route gives a body, merging the same delta into
    that body as fetched gives the same body, whatever the visiting orders
    of the two runs. *)
Theorem applyDelta_stable
    (o1 o2 : Order) (resp d body : Route) :
  validOrder o1 → validOrder o2 →
  (∀ delta, Config d = Some delta → noConflict delta) →
  applyDelta o1 (normalize resp) d = Val body →
  applyDelta o2 (normalize body) d = Val body.
Proof.
  intros [Hc1 Hh1] [Hc2 Hh2] Hnc Hrun. unfold applyDelta in Hrun.
  destruct (normalize_fields resp) as (HC & HH & HP).
  rewrite (mergeMaps_unfold _ _ _ _ _ HC HH) in Hrun.
  destruct (match Config d with
            | Some delta => Merge.mergeConfig (configOrder o1 delta) _
            | None => _
            end) as [c1| |] eqn:Ec; simpl in Hrun; [|done..].
  destruct (match Headers d with
            | Some delta => Merge.mergeHeaders (headersOrder o1 delta) _
            | None => _
            end) as [h1| |] eqn:Eh; simpl in Hrun; [|done..].
  simplify_eq.
  set (merged := withHeaders h1 (withConfig c1 (normalize resp))).
  destruct (overwriteScalars_maps merged d) as (EP & EC & EH).
  assert (∃ cfg1, c1 = Some cfg1) as [cfg1 ->].
  { destruct (Config d) as [delta|].
    - apply mergeConfig_nonnil in Ec as [? ?]; eauto.
    - simplify_eq. eauto. }
  assert (∃ hdr1, h1 = Some hdr1) as [hdr1 ->].
  { destruct (Headers d) as [delta|].
    - apply mergeHeaders_nonnil in Eh as [? ?]; eauto.
    - simplify_eq. eauto. }
  assert (normalize (overwriteScalars merged d) = overwriteScalars merged d)
    as ->.
  { apply normalize_id; [by rewrite EP|rewrite EC; simpl; eauto|
                          rewrite EH; simpl; eauto]. }
  unfold applyDelta.
  rewrite (mergeMaps_unfold o2 _ d cfg1 hdr1) by (by rewrite ?EC, ?EH).
  assert (match Config d with
          | Some delta => Merge.mergeConfig (configOrder o2 delta) (Some cfg1)
          | None => Val (Some cfg1)
          end = Val (Some cfg1)) as ->.
  { destruct (Config d) as [delta|] eqn:Hd; [|done].
    eapply mergeConfig_stable; [apply Hc1|apply Hc2|by apply Hnc|exact Ec]. }
  assert (match Headers d with
          | Some delta => Merge.mergeHeaders (headersOrder o2 delta) (Some hdr1)
          | None => Val (Some hdr1)
          end = Val (Some hdr1)) as ->.
  { destruct (Headers d) as [delta|] eqn:Hd; [|done].
    eapply mergeHeaders_stable; [apply Hh1|apply Hh2|exact Eh]. }
  simpl. f_equal.
  assert (withHeaders (Some hdr1)
            (withConfig (Some cfg1) (overwriteScalars merged d))
          = overwriteScalars merged d) as ->.
  { apply Route_eq; simpl; try done; by rewrite ?EC, ?EH. }
  apply overwriteScalars_twice.
Qed.

Lemma applyDelta_stable_witness :
  applyDelta
    (mkOrder (λ m, reverse (map_to_list m)) (λ m, reverse (map_to_list m)))
    (normalize
       (mkRoute "" "new/image" 256 "sync" (Some {[ "a" := "1" ]})
          (Some {[ "X" := ["1"]; "X-Trace" := ["on"] ]}) "" 1 (Some 30%Z)))
    (mkRoute "" "new/image" 256 "" (Some {[ "a" := "1"; "-k" := "" ]})
       (Some {[ "X" := ["1"] ]}) "" 0 None)
  = Val (mkRoute "" "new/image" 256 "sync" (Some {[ "a" := "1" ]})
           (Some {[ "X" := ["1"]; "X-Trace" := ["on"] ]}) "" 1 (Some 30%Z)).
Proof.
  apply (applyDelta_stable mapOrder _ Sample.fetched).
  - apply validOrder_mapOrder.
  - split; intros m; unfold Merge.rangeOf; simpl; apply reverse_Permutation.
  - intros delta [= <-].
    apply (@bool_decide_unpack _ (noConflict_dec _)). vm_compute. exact I.
  - vm_compute. reflexivity.
Defined.

(** ** [config set] and [config unset] *)

Section config_commands.

Lemma rangeOf_singleton {V : Type} (k : string) (v : V) l :
  Merge.rangeOf {[ k := v ]} l → l = [(k, v)].
Proof.
  unfold Merge.rangeOf. rewrite map_to_list_singleton.
  apply Permutation_singleton_r.
Qed.

(** A delta without scalar values leaves the scalar fields alone. *)
Lemma overwriteScalars_zero (x d : Route) :
  Image d = "" → Format d = "" → Type_ d = "" →
  (MaxConcurrency d ≤ 0)%Z → (Memory d ≤ 0)%Z → Timeout d = None →
  overwriteScalars x d = x.
Proof.
  intros Hi Hf Ht Hmc Hmem Hto. unfold overwriteScalars.
  rewrite Hi, Hf, Ht, Hto. simpl.
  assert ((0 <? MaxConcurrency d)%Z = false) as -> by (apply Z.ltb_ge; lia).
  assert ((0 <? Memory d)%Z = false) as -> by (apply Z.ltb_ge; lia).
  done.
Qed.

(** [patchRoute] on the delta that holds one config entry and nothing
    else. *)
Lemma patchRoute_single_config a o app path k v resp :
  validOrder o → GetAppsAppRoutesRoute (client a) app path = GetOK resp →
  patchRoute a o app path
    (Some (mkRoute "" "" 0 "" (Some {[ k := v ]}) None "" 0 None))
  = match GoString.firstIsDash k with
    | None => (Panic, [CallGet app path])
    | Some dash =>
        let cfg := default ∅ (Config resp) in
        let body :=
          withConfig
            (Some (if dash then delete (GoString.dropFirst k) cfg
                   else <[k := v]> cfg))
            (normalize resp) in
        (patchError (PatchAppsAppRoutesRoute (client a) app path body),
         [CallGet app path; CallPatch app path body])
    end.
Proof.
  intros [Hco _] Hget. unfold patchRoute. rewrite Hget.
  destruct (normalize_fields resp) as (HC & HH & HP).
  unfold applyDelta.
  rewrite (mergeMaps_unfold _ _ _ _ _ HC HH). simpl.
  rewrite (rangeOf_singleton k v _ (Hco _)).
  unfold Merge.mergeConfig. simpl. unfold Merge.configStep. simpl.
  destruct (GoString.firstIsDash k) as [[]|]; simpl; [| |done].
  - rewrite overwriteScalars_zero by (simpl; done || lia).
    assert (withHeaders (Some (default ∅ (Headers resp)))
              (withConfig
                 (Some (delete (GoString.dropFirst k) (default ∅ (Config resp))))
                 (normalize resp))
            = withConfig
                (Some (delete (GoString.dropFirst k) (default ∅ (Config resp))))
                (normalize resp)) as ->; [|done].
    apply Route_eq; simpl; done.
  - rewrite overwriteScalars_zero by (simpl; done || lia).
    assert (withHeaders (Some (default ∅ (Headers resp)))
              (withConfig (Some (<[k:=v]> (default ∅ (Config resp))))
                 (normalize resp))
            = withConfig (Some (<[k:=v]> (default ∅ (Config resp))))
                (normalize resp)) as ->; [|done].
    apply Route_eq; simpl; done.
Qed.

End config_commands.

(** X11.  [config unset] never panics: with three arguments and a
    successful fetch it submits, for every key (empty or starting with a
    dash as well), the fetched route with that key removed from its config
    and nothing else changed but the cleared path and nil maps made
    empty. *)
Theorem configUnset_removes_the_key
    (a : routesCmd) (o : Order) (c : Context) (resp : Route) :
  validOrder o → (3 ≤ length (Args c))%nat →
  GetAppsAppRoutesRoute (client a) (argsGet c 0) (argsGet c 1) = GetOK resp →
  let body :=
    withConfig (Some (delete (argsGet c 2) (default ∅ (Config resp))))
      (normalize resp) in
  configUnset a o c
  = (patchError
       (PatchAppsAppRoutesRoute (client a) (argsGet c 0) (argsGet c 1) body),
     [CallGet (argsGet c 0) (argsGet c 1);
      CallPatch (argsGet c 0) (argsGet c 1) body]).
Proof.
  intros Ho Hlen Hget. unfold configUnset.
  assert ((length (Args c) <? 3)%nat = false) as -> by (by apply Nat.ltb_ge).
  by rewrite (patchRoute_single_config _ _ _ _ _ _ resp Ho Hget).
Qed.

Lemma configUnset_removes_the_key_witness :
  configUnset (Sample.stub (GetOK Sample.fetched) PatchOK) mapOrder
    (mkContext ["app"; "/hello"; ""] 0 "" [] [] "" 0 0)
  = (Val (),
     [CallGet "app" "/hello";
      CallPatch "app" "/hello"
        (withConfig (Some (delete "" {[ "k" := "v" ]}))
           (normalize Sample.fetched))]).
Proof.
  apply (configUnset_removes_the_key
           (Sample.stub (GetOK Sample.fetched) PatchOK) mapOrder
           (mkContext ["app"; "/hello"; ""] 0 "" [] [] "" 0 0) Sample.fetched).
  - apply validOrder_mapOrder.
  - simpl. lia.
  - reflexivity.
Defined.

(** X12.  [config set] with four arguments and a successful fetch: a key
    that does not start with a dash is set to the value; a key that starts
    with a dash removes the key without the dash and the value is not used;
    the empty key panics after the fetch, with no replace call. *)
Theorem configSet_by_key
    (a : routesCmd) (o : Order) (c : Context) (resp : Route) :
  validOrder o → (4 ≤ length (Args c))%nat →
  GetAppsAppRoutesRoute (client a) (argsGet c 0) (argsGet c 1) = GetOK resp →
  let app := argsGet c 0 in
  let path := argsGet c 1 in
  let key := argsGet c 2 in
  let cfg := default ∅ (Config resp) in
  let submits new :=
    configSet a o c
    = (patchError
         (PatchAppsAppRoutesRoute (client a) app path
            (withConfig (Some new) (normalize resp))),
       [CallGet app path;
        CallPatch app path (withConfig (Some new) (normalize resp))]) in
  (key = "" → configSet a o c = (Panic, [CallGet app path])) ∧
  (GoString.firstIsDash key = Some false →
   submits (<[key := argsGet c 3]> cfg)) ∧
  (GoString.firstIsDash key = Some true →
   submits (delete (GoString.dropFirst key) cfg)).
Proof.
  intros Ho Hlen Hget. simpl. unfold configSet.
  assert ((length (Args c) <? 4)%nat = false) as -> by (by apply Nat.ltb_ge).
  rewrite (patchRoute_single_config _ _ _ _ _ _ resp Ho Hget).
  repeat split.
  - by intros ->.
  - by intros ->.
  - by intros ->.
Qed.

Lemma configSet_by_key_witness :
  configSet (Sample.stub (GetOK Sample.fetched) PatchOK) mapOrder
    (mkContext ["app"; "/hello"; "-k"; "ignored"] 0 "" [] [] "" 0 0)
  = (Val (),
     [CallGet "app" "/hello";
      CallPatch "app" "/hello"
        (withConfig (Some (delete "k" {[ "k" := "v" ]}))
           (normalize Sample.fetched))]).
Proof.
  apply (configSet_by_key
           (Sample.stub (GetOK Sample.fetched) PatchOK) mapOrder
           (mkContext ["app"; "/hello"; "-k"; "ignored"] 0 "" [] [] "" 0 0)
           Sample.fetched).
  - apply validOrder_mapOrder.
  - simpl. lia.
  - reflexivity.
  - reflexivity.
Defined.

(** X13.  [config unset] undoes [config set]: when a key that does not
    start with a dash and is not in the fetched config is set, and the key
    is then unset on the route as submitted, the config submitted last is
    the fetched config. *)
Theorem configSet_then_configUnset
    (a1 a2 : routesCmd) (o1 o2 : Order) (app path key value : string)
    (resp : Route) (cfg : gmap string string) (body1 body2 : Route) :
  validOrder o1 → validOrder o2 →
  GoString.firstIsDash key = Some false →
  Config resp = Some cfg → cfg !! key = None →
  GetAppsAppRoutesRoute (client a1) app path = GetOK resp →
  CallPatch app path body1
    ∈ (configSet a1 o1 (mkContext [app; path; key; value] 0 "" [] [] "" 0 0)).2 →
  GetAppsAppRoutesRoute (client a2) app path = GetOK body1 →
  CallPatch app path body2
    ∈ (configUnset a2 o2 (mkContext [app; path; key] 0 "" [] [] "" 0 0)).2 →
  Config body2 = Some cfg ∧ body2 = normalize resp.
Proof.
  intros Ho1 Ho2 Hkey Hcfg Hfresh Hget1 Hin1 Hget2 Hin2.
  change (configSet a1 o1 (mkContext [app; path; key; value] 0 "" [] [] "" 0 0))
    with (patchRoute a1 o1 app path
            (Some (mkRoute "" "" 0 "" (Some {[ key := value ]}) None "" 0 None)))
    in Hin1.
  rewrite (patchRoute_single_config _ _ _ _ _ _ resp Ho1 Hget1), Hkey in Hin1.
  simpl in Hin1. rewrite !elem_of_cons in Hin1.
  destruct Hin1 as [|[[= Hb1]|Hnil]]; [done| |by apply elem_of_nil in Hnil].
  change (configUnset a2 o2 (mkContext [app; path; key] 0 "" [] [] "" 0 0))
    with (patchRoute a2 o2 app path
            (Some (mkRoute "" "" 0 "" (Some {[ "-" +:+ key := "" ]}) None
                     "" 0 None)))
    in Hin2.
  rewrite (patchRoute_single_config _ _ _ _ _ _ body1 Ho2 Hget2) in Hin2.
  simpl in Hin2. rewrite !elem_of_cons in Hin2.
  destruct Hin2 as [|[[= Hb2]|Hnil]]; [done| |by apply elem_of_nil in Hnil].
  destruct (normalize_fields resp) as (HC & HH & HP).
  assert (body2 = normalize resp) as ->.
  { subst body2 body1.
    remember (normalize resp) as N eqn:HN.
    rewrite Hcfg in *. simpl in *.
    rewrite (normalize_id (withConfig _ N)) by (simpl; eauto).
    simpl. rewrite delete_insert_id by done.
    apply Route_eq; simpl; done. }
  split; [by rewrite HC, Hcfg|done].
Qed.

Lemma configSet_then_configUnset_witness :
  Config (normalize Sample.fetched) = Some {[ "k" := "v" ]} ∧
  normalize Sample.fetched = normalize Sample.fetched.
Proof.
  apply (configSet_then_configUnset
           (Sample.stub (GetOK Sample.fetched) PatchOK)
           (Sample.stub
              (GetOK (withConfig (Some {[ "a" := "1"; "k" := "v" ]})
                        (normalize Sample.fetched)))
              PatchOK)
           mapOrder mapOrder "app" "/hello" "a" "1" Sample.fetched
           {[ "k" := "v" ]}
           (withConfig (Some {[ "a" := "1"; "k" := "v" ]})
              (normalize Sample.fetched))
           (normalize Sample.fetched)).
  - apply validOrder_mapOrder.
  - apply validOrder_mapOrder.
  - reflexivity.
  - reflexivity.
  - reflexivity.
  - reflexivity.
  - vm_compute. apply list_elem_of_further, list_elem_of_here.
  - reflexivity.
  - vm_compute. apply list_elem_of_further, list_elem_of_here.
Defined.

(** ** [update] from the command line to the requests *)

Section update_facts.

Lemma updateDelta_inv e c app route delta :
  updateDelta e c = Val (app, route, delta) →
  ∃ ff headers,
    (2 ≤ length (Args c))%nat ∧
    (loadFuncfile e).1 = Some ff ∧
    app = argsGet c 0 ∧ route = updateRoute c ff ∧ route ≠ "" ∧
    parseHeaders (flagHeaders c) ∅ = Val headers ∧
    Headers delta = Some headers ∧
    Config delta = extractEnvConfig e (flagConfig c) ∧
    Memory delta = flagMemory c ∧ Type_ delta = flagType c ∧
    Timeout delta = Some (updateTimeout c ff) ∧
    MaxConcurrency delta = int32 (updateMaxConcurrency c ff).
Proof.
  unfold updateDelta, updateRoute, updateTimeout, updateMaxConcurrency.
  intros H.
  destruct (length (Args c) <? 2)%nat eqn:Hlen; [done|].
  apply Nat.ltb_ge in Hlen.
  destruct (match (loadFuncfile e).2 with
            | Some (notFoundError _) => _
            | Some (otherLoadError text) => _
            | None => _
            end) as [[]| |]; simpl in H; [|done..].
  destruct ((loadFuncfile e).1) as [ff|]; [|done].
  destruct (decide ((if decide (argsGet c 1 = "") then _ else _) = ""))
    as [|Hne]; [done|].
  destruct (parseHeaders (flagHeaders c) ∅) as [headers| |] eqn:Hp;
    simpl in H; [|done..].
  simplify_eq. exists ff, headers. simpl. repeat split; done.
Qed.

Lemma patchRoute_trace_elem a o app path r call :
  call ∈ (patchRoute a o app path r).2 →
  call = CallGet app path ∨
  ∃ resp body,
    call = CallPatch app path body ∧
    GetAppsAppRoutesRoute (client a) app path = GetOK resp ∧
    match r with
    | None => body = normalize resp
    | Some d => applyDelta o (normalize resp) d = Val body
    end.
Proof.
  unfold patchRoute.
  destruct (GetAppsAppRoutesRoute (client a) app path) as [resp| | |];
    simpl; try (intros ->%list_elem_of_singleton; by left).
  destruct (match r with
            | Some r0 => applyDelta o (normalize resp) r0
            | None => Val (normalize resp)
            end) as [body| |] eqn:Hb;
    simpl; try (intros ->%list_elem_of_singleton; by left).
  rewrite !elem_of_cons. intros [->|[->|Hnil]]; [by left| |].
  - right. exists resp, body. split; [done|]. split; [done|].
    destruct r; by simplify_eq.
  - by apply elem_of_nil in Hnil.
Qed.

Lemma parseHeaders_panic literals h :
  Exists (λ lit, containsByte "=" lit = false) literals →
  parseHeaders literals h = Panic.
Proof.
  intros Hex. revert h. induction Hex as [lit literals Hbad|lit literals _ IH];
    intros h; simpl.
  - by rewrite (Split_absent lit "=" Hbad).
  - by destruct (GoString.Split lit "=") as [|? [|? ?]].
Qed.

End update_facts.

(** X14.  Without a function file [update] never reaches the server: when
    [loadFuncfile] returns no function file, [update] issues no request and
    does not succeed; and when the reason is that the file was not found
    and an image argument is given, [update] does not continue as its
    warning says but panics on the nil function file. *)
Theorem update_without_funcfile
    (a : routesCmd) (e : Env) (o : Order) (c : Context) :
  (loadFuncfile e).1 = None →
  (update a e o c).2 = [] ∧ (update a e o c).1 ≠ Val () ∧
  ((2 ≤ length (Args c))%nat → argsGet c 2 ≠ "" →
   (∀ text, (loadFuncfile e).2 ≠ Some (otherLoadError text)) →
   update a e o c = (Panic, [])).
Proof.
  intros Hnil.
  assert (∀ app route delta, updateDelta e c ≠ Val (app, route, delta)) as Hno.
  { intros app route delta (ff & _ & _ & Hff & _)%updateDelta_inv. congruence. }
  unfold update.
  destruct (updateDelta e c) as [[[app route] delta]| |] eqn:Hd.
  { by destruct (Hno app route delta). }
  - repeat split; try done. intros Hlen Himg Hother. exfalso.
    unfold updateDelta in Hd.
    assert ((length (Args c) <? 2)%nat = false) as Hlt by (by apply Nat.ltb_ge).
    rewrite Hlt, Hnil in Hd.
    destruct ((loadFuncfile e).2) as [[t|t]|]; simpl in Hd.
    + by destruct (decide (argsGet c 2 = "")).
    + by destruct (Hother t).
    + done.
  - repeat split; done.
Qed.

Lemma update_without_funcfile_witness :
  update (Sample.stub (GetOK Sample.fetched) PatchOK)
    (Sample.env (None, Some (notFoundError "no func file")))
    mapOrder Sample.updateWithImage
  = (Panic, []).
Proof.
  apply (update_without_funcfile (Sample.stub (GetOK Sample.fetched) PatchOK)
           (Sample.env (None, Some (notFoundError "no func file")))
           mapOrder Sample.updateWithImage).
  - reflexivity.
  - simpl. lia.
  - discriminate.
  - intros text. discriminate.
Defined.

(** X15.  Every request that [update] issues is addressed to the
    application of the first argument and to a non-empty route path: the
    second argument when that is not empty, and the function file's path
    otherwise. *)
Theorem update_requests_address
    (a : routesCmd) (e : Env) (o : Order) (c : Context) (call : Call) :
  call ∈ (update a e o c).2 →
  ∃ ff, (loadFuncfile e).1 = Some ff ∧ updateRoute c ff ≠ "" ∧
        (argsGet c 1 ≠ "" → updateRoute c ff = argsGet c 1) ∧
        (argsGet c 1 = "" → Funcfile.path ff = Some (updateRoute c ff)) ∧
        (call = CallGet (argsGet c 0) (updateRoute c ff) ∨
         ∃ body, call = CallPatch (argsGet c 0) (updateRoute c ff) body).
Proof.
  unfold update.
  destruct (updateDelta e c) as [[[app route] delta]| |] eqn:Hd;
    [|by intros ?%elem_of_nil..].
  apply updateDelta_inv in Hd
    as (ff & headers & _ & Hff & -> & -> & Hne & _).
  intros Hin. exists ff. split; [done|]. split; [done|].
  split; [|split].
  - intros Harg. unfold updateRoute. by rewrite decide_False.
  - intros Harg. unfold updateRoute in *. rewrite decide_True in * by done.
    destruct (Funcfile.path ff); [done|]. simpl in Hne. congruence.
  - apply patchRoute_trace_elem in Hin as [->|(resp & body & -> & _)]; eauto.
Qed.

Lemma update_requests_address_witness :
  ∃ ff, (loadFuncfile (Sample.env (Some Sample.funcfile, None))).1 = Some ff ∧
        updateRoute Sample.updateNoImage ff ≠ "" ∧
        (argsGet Sample.updateNoImage 1 ≠ "" →
         updateRoute Sample.updateNoImage ff = argsGet Sample.updateNoImage 1) ∧
        (argsGet Sample.updateNoImage 1 = "" →
         Funcfile.path ff = Some (updateRoute Sample.updateNoImage ff)) ∧
        (CallGet "app" "/hello"
         = CallGet (argsGet Sample.updateNoImage 0)
             (updateRoute Sample.updateNoImage ff) ∨
         ∃ body, CallGet "app" "/hello"
                 = CallPatch (argsGet Sample.updateNoImage 0)
                     (updateRoute Sample.updateNoImage ff) body).
Proof.
  apply (update_requests_address (Sample.stub (GetOK Sample.fetched) PatchOK)
           (Sample.env (Some Sample.funcfile, None)) mapOrder
           Sample.updateNoImage (CallGet "app" "/hello")).
  vm_compute. apply list_elem_of_here.
Defined.

(** X16.  The replace call of [update] never keeps the fetched timeout and
    never carries nil maps: its body has the timeout resolved from the flag
    and the function file (zero when neither gives one), in whole
    seconds. *)
Theorem update_submits_resolved_timeout
    (a : routesCmd) (e : Env) (o : Order) (c : Context)
    (app path : string) (body : Route) :
  CallPatch app path body ∈ (update a e o c).2 →
  ∃ ff, (loadFuncfile e).1 = Some ff ∧
        Timeout body = Some (updateTimeout c ff) ∧
        is_Some (Config body) ∧ is_Some (Headers body) ∧ Path body = "".
Proof.
  unfold update.
  destruct (updateDelta e c) as [[[app' route] delta]| |] eqn:Hd;
    [|by intros ?%elem_of_nil..].
  apply updateDelta_inv in Hd
    as (ff & headers & _ & Hff & -> & -> & _ & _ & _ & _ & _ & _ & Hto & _).
  intros Hin. exists ff. split; [done|].
  apply patchRoute_trace_elem in Hin as [|(resp & body' & [= _ _ <-] & _ & Hrun)];
    [done|].
  unfold applyDelta in Hrun.
  destruct (mergeMaps o (normalize resp) delta) as [route'| |] eqn:Hm;
    simpl in Hrun; [|done..]. simplify_eq.
  destruct (overwriteScalars_scalars route' delta) as (_ & _ & _ & _ & _ & ->).
  destruct (overwriteScalars_maps route' delta) as (-> & -> & ->).
  destruct (normalize_fields resp) as (HC & HH & HP).
  apply mergeMaps_fields in Hm as (-> & _ & _ & _ & _ & _ & _ & HC' & HH').
  rewrite Hto. split; [done|]. split; [|split; [|done]].
  - apply HC'. rewrite HC. eauto.
  - apply HH'. rewrite HH. eauto.
Qed.

Lemma update_submits_resolved_timeout_witness :
  ∃ ff, (loadFuncfile (Sample.env (Some Sample.funcfile, None))).1 = Some ff ∧
        Timeout (mkRoute "" "me/hello:0.0.1" 128 "sync" (Some {[ "k" := "v" ]})
                   (Some {[ "X-Trace" := ["on"] ]}) "" 1 (Some 0%Z))
        = Some (updateTimeout Sample.updateNoImage ff) ∧
        is_Some (Some ({[ "k" := "v" ]} : gmap string string)) ∧
        is_Some (Some ({[ "X-Trace" := ["on"] ]} : gmap string (list string))) ∧
        "" = "".
Proof.
  apply (update_submits_resolved_timeout
           (Sample.stub (GetOK Sample.fetched) PatchOK)
           (Sample.env (Some Sample.funcfile, None)) mapOrder
           Sample.updateNoImage "app" "/hello"
           (mkRoute "" "me/hello:0.0.1" 128 "sync" (Some {[ "k" := "v" ]})
              (Some {[ "X-Trace" := ["on"] ]}) "" 1 (Some 0%Z))).
  vm_compute. apply list_elem_of_further, list_elem_of_here.
Defined.

(** X17.  A [--headers] literal without [=] makes [update] panic before
    any request, when the arguments and the function file are in order. *)
Theorem update_header_without_equals
    (a : routesCmd) (e : Env) (o : Order) (c : Context)
    (ff : Funcfile.funcfile) :
  (2 ≤ length (Args c))%nat → loadFuncfile e = (Some ff, None) →
  updateRoute c ff ≠ "" →
  Exists (λ lit, containsByte "=" lit = false) (flagHeaders c) →
  update a e o c = (Panic, []).
Proof.
  intros Hlen Hload Hroute Hbad. unfold update, updateDelta.
  assert ((length (Args c) <? 2)%nat = false) as -> by (by apply Nat.ltb_ge).
  rewrite Hload. simpl. fold (updateRoute c ff).
  rewrite decide_False by done.
  by rewrite (parseHeaders_panic _ _ Hbad).
Qed.

Lemma update_header_without_equals_witness :
  update (Sample.stub (GetOK Sample.fetched) PatchOK)
    (Sample.env (Some Sample.funcfile, None)) mapOrder
    (mkContext ["app"; "/hello"] 0 "" [] ["X-Trace"] "" 0 0)
  = (Panic, []).
Proof.
  apply (update_header_without_equals _ _ _ _ Sample.funcfile).
  - simpl. lia.
  - reflexivity.
  - discriminate.
  - apply Exists_cons_hd. reflexivity.
Defined.

(** ** [create] from the command line to the request *)

(** X18.  [create] issues at most one request, a create call for the
    application of the first argument, and its body always has a non-empty
    path, a non-empty image, a timeout and no headers; an explicit path or
    image argument is the one submitted. *)
Theorem create_posts_complete_route
    (a : routesCmd) (e : Env) (c : Context) (call : Call) :
  call ∈ (create a e c).2 →
  ∃ body,
    (create a e c).2 = [CallPost (argsGet c 0) body] ∧
    call = CallPost (argsGet c 0) body ∧
    Path body ≠ "" ∧ Image body ≠ "" ∧
    Headers body = None ∧ is_Some (Timeout body) ∧
    (argsGet c 1 ≠ "" → Path body = argsGet c 1) ∧
    (argsGet c 2 ≠ "" → Image body = argsGet c 2).
Proof.
  unfold create, createBody.
  destruct (length (Args c) <? 2)%nat; [by intros ?%elem_of_nil|].
  destruct (decide (argsGet c 2 = "")) as [Himg|Himg].
  - destruct ((loadFuncfile e).2) as [[t|t]|]; simpl;
      [by intros ?%elem_of_nil..|].
    destruct ((loadFuncfile e).1) as [ff|]; simpl;
      [|by intros ?%elem_of_nil].
    destruct (decide ((if decide (argsGet c 1 = "") then _ else _) = ""))
      as [|Hroute]; [by intros ?%elem_of_nil|].
    destruct (decide (Funcfile.FullName ff = "")) as [|Hname];
      [by intros ?%elem_of_nil|].
    simpl. intros ->%list_elem_of_singleton. eexists.
    split; [done|]. split; [done|]. simpl. repeat split; try done; eauto.
    intros Harg. by rewrite decide_False.
  - simpl.
    destruct (decide (argsGet c 1 = "")) as [|Hroute];
      [by intros ?%elem_of_nil|].
    destruct (decide (argsGet c 2 = "")); [done|].
    simpl. intros ->%list_elem_of_singleton. eexists.
    split; [done|]. split; [done|]. simpl. repeat split; try done; eauto.
Qed.

Lemma create_posts_complete_route_witness :
  ∃ body,
    (create (Sample.stub (GetOK Sample.fetched) PatchOK)
       (Sample.env (Some Sample.tuned, None)) Sample.updateNoImage).2
    = [CallPost (argsGet Sample.updateNoImage 0) body] ∧
    CallPost "app"
      (mkRoute "/hello" "me/hello:0.0.1" 0 "" (Some ∅) None "http" 4
         (Some 30%Z))
    = CallPost (argsGet Sample.updateNoImage 0) body ∧
    Path body ≠ "" ∧ Image body ≠ "" ∧
    Headers body = None ∧ is_Some (Timeout body) ∧
    (argsGet Sample.updateNoImage 1 ≠ "" →
     Path body = argsGet Sample.updateNoImage 1) ∧
    (argsGet Sample.updateNoImage 2 ≠ "" →
     Image body = argsGet Sample.updateNoImage 2).
Proof.
  apply (create_posts_complete_route
           (Sample.stub (GetOK Sample.fetched) PatchOK)
           (Sample.env (Some Sample.tuned, None)) Sample.updateNoImage).
  vm_compute. apply list_elem_of_here.
Defined.

(** X19.  With an image argument [create] does not read the function
    file: whatever [loadFuncfile] would return (a file with another format,
    max-concurrency, timeout or path, or an error), the result and the
    request are the same. *)
Theorem create_with_image_ignores_funcfile
    (a : routesCmd) (e e' : Env) (c : Context) :
  argsGet c 2 ≠ "" → extractEnvConfig e = extractEnvConfig e' →
  create a e c = create a e' c.
Proof.
  intros Himg Hcfg. unfold create, createBody.
  destruct (length (Args c) <? 2)%nat; [done|].
  rewrite !decide_False by done. simpl. by rewrite Hcfg.
Qed.

Lemma create_with_image_ignores_funcfile_witness :
  create (Sample.stub (GetOK Sample.fetched) PatchOK)
    (Sample.env (Some Sample.tuned, None)) Sample.updateWithImage
  = create (Sample.stub (GetOK Sample.fetched) PatchOK)
      (Sample.env (None, Some (otherLoadError "unreadable")))
      Sample.updateWithImage.
Proof.
  apply create_with_image_ignores_funcfile; [discriminate|reflexivity].
Defined.

(** X20.  [create] with an empty path argument fails with the path-missing
    error, before any request, whenever an image argument is given (the
    function file's path is then not read) or the function file gives no
    path; the path check comes before the image check. *)
Theorem create_path_missing
    (a : routesCmd) (e : Env) (c : Context) :
  (2 ≤ length (Args c))%nat → argsGet c 1 = "" →
  (argsGet c 2 ≠ "" ∨
   ∃ ff, loadFuncfile e = (Some ff, None) ∧
         (Funcfile.path ff = None ∨ Funcfile.path ff = Some "")) →
  create a e c = (Err "error: route path is missing", []).
Proof.
  intros Hlen Hroute Hcase. unfold create, createBody.
  assert ((length (Args c) <? 2)%nat = false) as -> by (by apply Nat.ltb_ge).
  destruct (decide (argsGet c 2 = "")) as [Himg|Himg].
  - destruct Hcase as [|(ff & Hload & Hpath)]; [done|].
    rewrite Hload. simpl. rewrite Hroute. simpl.
    by destruct Hpath as [-> | ->].
  - simpl. by rewrite decide_True.
Qed.

Lemma create_path_missing_witness :
  create (Sample.stub (GetOK Sample.fetched) PatchOK)
    (Sample.env (Some Sample.tuned, None))
    (mkContext ["app"; ""] 128 "sync" [] [] "" 1 (30 * Second))
  = (Err "error: route path is missing", []).
Proof.
  apply create_path_missing.
  - simpl. lia.
  - reflexivity.
  - right. exists Sample.tuned. split; [reflexivity|by left].
Defined.

(** ** [callfn] and [envAsHeader] *)

Section callfn_facts.
Import Http.





End callfn_facts.





(** ** What the merge never adds *)

Section no_dash_keys.

Lemma mergeConfig_adds_no_dash_key l cur m' k :
  GoString.firstIsDash k = Some true →
  Merge.mergeConfig l (Some cur) = Val (Some m') →
  is_Some (m' !! k) → is_Some (cur !! k).
Proof.
  intros Hk. revert cur. induction l as [|[j v] l IH]; intros cur Hrun Hin.
  - unfold Merge.mergeConfig in Hrun. simpl in Hrun. by simplify_eq.
  - unfold Merge.mergeConfig in *. simpl in Hrun.
    unfold Merge.configStep in Hrun. simpl in Hrun.
    destruct (GoString.firstIsDash j) as [[]|] eqn:Hj; simpl in Hrun; [| |done].
    + specialize (IH _ Hrun Hin).
      destruct (decide (GoString.dropFirst j = k)) as [<-|Hne].
      * rewrite lookup_delete_eq in IH. by destruct IH.
      * by rewrite lookup_delete_ne in IH.
    + specialize (IH _ Hrun Hin).
      rewrite lookup_insert_ne in IH; [done|congruence].
Qed.

Lemma mergeHeaders_adds_no_dash_key l cur m' k :
  GoString.firstIsDash k = Some true →
  Merge.mergeHeaders l (Some cur) = Val (Some m') →
  is_Some (m' !! k) → is_Some (cur !! k).
Proof.
  intros Hk. revert cur. induction l as [|[j v] l IH]; intros cur Hrun Hin.
  - unfold Merge.mergeHeaders in Hrun. simpl in Hrun. by simplify_eq.
  - unfold Merge.mergeHeaders in *. simpl in Hrun.
    unfold Merge.headersStep in Hrun. simpl in Hrun.
    destruct (GoString.firstIsDash j) as [[]|] eqn:Hj; simpl in Hrun; [| |done].
    + specialize (IH _ Hrun Hin).
      destruct (decide (j = k)) as [<-|Hne].
      * rewrite lookup_delete_eq in IH. by destruct IH.
      * by rewrite lookup_delete_ne in IH.
    + specialize (IH _ Hrun Hin).
      rewrite lookup_insert_ne in IH; [done|congruence].
Qed.

End no_dash_keys.

(** X23.  [patchRoute] adds no key that starts with a dash: a config or
    header key with a leading dash in the body of a replace call was in the
    fetched route already, whatever the delta and the visiting order. *)
Theorem patchRoute_adds_no_dash_key
    (a : routesCmd) (o : Order) (app path : string) (r : option Route)
    (resp : Route) (app' path' : string) (body : Route) (k : string) :
  GetAppsAppRoutesRoute (client a) app path = GetOK resp →
  CallPatch app' path' body ∈ (patchRoute a o app path r).2 →
  isDeletionKey k →
  (∀ m, Config body = Some m → is_Some (m !! k) →
        ∃ m0, Config resp = Some m0 ∧ is_Some (m0 !! k)) ∧
  (∀ m, Headers body = Some m → is_Some (m !! k) →
        ∃ m0, Headers resp = Some m0 ∧ is_Some (m0 !! k)).
Proof.
  intros Hget Hin Hk. unfold isDeletionKey in Hk.
  apply patchRoute_trace_elem in Hin as [|(resp' & body' & [= _ _ <-] & Hget' & Hrun)];
    [done|].
  rewrite Hget in Hget'. simplify_eq.
  destruct (normalize_fields resp') as (HC & HH & HP).
  assert (∀ (V : Type) (x : option (gmap string V)) (m : gmap string V),
            default ∅ x = m → is_Some (m !! k) →
            ∃ m0, x = Some m0 ∧ is_Some (m0 !! k)) as Hdef.
  { intros V [m0|] m <- Hm; simpl in Hm; [eauto|].
    rewrite lookup_empty in Hm. by destruct Hm. }
  destruct r as [d|].
  2: { subst body. rewrite HC, HH.
       split; intros m [= <-] Hm; by eapply Hdef. }
  unfold applyDelta in Hrun.
  rewrite (mergeMaps_unfold _ _ _ _ _ HC HH) in Hrun.
  destruct (match Config d with
            | Some delta => Merge.mergeConfig (configOrder o delta) _
            | None => _
            end) as [c1| |] eqn:Ec; simpl in Hrun; [|done..].
  destruct (match Headers d with
            | Some delta => Merge.mergeHeaders (headersOrder o delta) _
            | None => _
            end) as [h1| |] eqn:Eh; simpl in Hrun; [|done..].
  simplify_eq.
  destruct (overwriteScalars_maps
              (withHeaders h1 (withConfig c1 (normalize resp'))) d)
    as (_ & -> & ->). simpl.
  split; intros m -> Hm; eapply Hdef; try done.
  - destruct (Config d) as [delta|]; [|by simplify_eq].
    eapply mergeConfig_adds_no_dash_key; eauto.
  - destruct (Headers d) as [delta|]; [|by simplify_eq].
    eapply mergeHeaders_adds_no_dash_key; eauto.
Qed.

Lemma patchRoute_adds_no_dash_key_witness :
  (∀ m, Config (mkRoute "" "me/hello:0.0.1" 128 "sync" (Some {[ "k" := "v" ]})
                  (Some {[ "X-Trace" := ["on"] ]}) "" 1 (Some 30%Z)) = Some m →
        is_Some (m !! "-X-Trace") →
        ∃ m0, Config Sample.fetched = Some m0 ∧ is_Some (m0 !! "-X-Trace")) ∧
  (∀ m, Headers (mkRoute "" "me/hello:0.0.1" 128 "sync" (Some {[ "k" := "v" ]})
                   (Some {[ "X-Trace" := ["on"] ]}) "" 1 (Some 30%Z)) = Some m →
        is_Some (m !! "-X-Trace") →
        ∃ m0, Headers Sample.fetched = Some m0 ∧ is_Some (m0 !! "-X-Trace")).
Proof.
  apply (patchRoute_adds_no_dash_key
           (Sample.stub (GetOK Sample.fetched) PatchOK) mapOrder "app" "/hello"
           (Some Sample.dropHeader) Sample.fetched "app" "/hello").
  - reflexivity.
  - vm_compute. apply list_elem_of_further, list_elem_of_here.
  - reflexivity.
Defined.

(** ** Integer conversions in [update] *)

Section conversions.

Lemma int32_range x : (-2147483648 ≤ int32 x < 2147483648)%Z.
Proof.
  unfold int32.
  pose proof (Z.mod_pos_bound (x + 2147483648) 4294967296 ltac:(lia)). lia.
Qed.

Lemma int32_small x : (-2147483648 ≤ x < 2147483648)%Z → int32 x = x.
Proof. intros Hx. unfold int32. rewrite Z.mod_small by lia. lia. Qed.

Lemma int32_congruent x : ((int32 x - x) `mod` 4294967296 = 0)%Z.
Proof.
  unfold int32. rewrite (Z.mod_eq (x + 2147483648) 4294967296) by lia.
  set (q := ((x + 2147483648) `div` 4294967296)%Z).
  replace (x + 2147483648 - 4294967296 * q - 2147483648 - x)%Z
    with ((- q) * 4294967296)%Z by lia.
  apply Z.mod_mul. lia.
Qed.

End conversions.

(** X24.  The max-concurrency in the delta of [update] is the resolved
    value narrowed to 32 bits: it lies in the int32 range, differs from the
    resolved value by a multiple of 2^32, and is the resolved value itself
    when that fits. *)
Theorem update_maxConcurrency_narrowed
    (e : Env) (c : Context) (app route : string) (delta : Route) :
  updateDelta e c = Val (app, route, delta) →
  ∃ ff, (loadFuncfile e).1 = Some ff ∧
    (-2147483648 ≤ MaxConcurrency delta < 2147483648)%Z ∧
    ((MaxConcurrency delta - updateMaxConcurrency c ff) `mod` 4294967296 = 0)%Z ∧
    ((-2147483648 ≤ updateMaxConcurrency c ff < 2147483648)%Z →
     MaxConcurrency delta = updateMaxConcurrency c ff).
Proof.
  intros (ff & headers & _ & Hff & _ & _ & _ & _ & _ & _ & _ & _ & _ & ->)
    %updateDelta_inv.
  exists ff. split; [done|]. split; [apply int32_range|].
  split; [apply int32_congruent|apply int32_small].
Qed.

Lemma update_maxConcurrency_narrowed_witness :
  ∃ ff, (loadFuncfile (Sample.env (Some Sample.funcfile, None))).1 = Some ff ∧
    (-2147483648 ≤ 1 < 2147483648)%Z ∧
    ((1 - updateMaxConcurrency
            (mkContext ["app"; "/hello"] 0 "" [] [] "" 4294967297 0) ff)
       `mod` 4294967296 = 0)%Z ∧
    ((-2147483648 ≤ updateMaxConcurrency
                      (mkContext ["app"; "/hello"] 0 "" [] [] "" 4294967297 0) ff
      < 2147483648)%Z →
     1%Z = updateMaxConcurrency
             (mkContext ["app"; "/hello"] 0 "" [] [] "" 4294967297 0) ff).
Proof.
  apply (update_maxConcurrency_narrowed
           (Sample.env (Some Sample.funcfile, None))
           (mkContext ["app"; "/hello"] 0 "" [] [] "" 4294967297 0)
           "app" "/hello"
           (mkRoute "" "" 0 "" (Some ∅) (Some ∅) "" 1 (Some 0%Z))).
  vm_compute. reflexivity.
Defined.


(** ** The seconds that [update] and [create] submit *)

(** Whole seconds are exact; a fraction is dropped, toward zero. *)
Example durationSeconds_whole :
  durationSeconds (45 * Second) = 45%Z ∧ durationSeconds (30 * Second) = 30%Z ∧
  durationSeconds 0 = 0%Z ∧ durationSeconds 1500000000 = 1%Z ∧
  durationSeconds (-1500000000) = (-1)%Z.
Proof. vm_compute. repeat split. Qed.

(** From 2^24 seconds on, a fraction within a nanosecond of one second is
    lost in the float64 sum, which is then the next whole second. *)
Example durationSeconds_rounds_up :
  durationSeconds 16777216999999999 = 16777217%Z ∧
  durationSeconds 16777215999999999 = 16777215%Z.
Proof. vm_compute. split; reflexivity. Qed.

(** ** Field precedence in [update], from the flags to the replace body *)

Section update_precedence.

Lemma normalize_scalars resp :
  Image (normalize resp) = Image resp ∧ Memory (normalize resp) = Memory resp ∧
  Type_ (normalize resp) = Type_ resp ∧ Format (normalize resp) = Format resp ∧
  MaxConcurrency (normalize resp) = MaxConcurrency resp ∧
  Timeout (normalize resp) = Timeout resp.
Proof.
  unfold normalize. destruct resp as [p i m t [c|] [h|] f mc to]; simpl; done.
Qed.

End update_precedence.

(** C6 (amended).  When [update] has loaded a function file and has a route
    path, the value it resolves is the function file's (the zero value when
    the file gives none) when the flag is empty (format) or zero or negative
    (max-concurrency, timeout), and the flag's when the flag is not empty
    or positive.  The delta it hands to [patchRoute] carries the resolved
    format, the resolved max-concurrency narrowed to int32, and the
    resolved timeout as [int64(timeout.Seconds())].  The body of the replace
    call carries that timeout always, and the delta's format and
    max-concurrency when they are not empty and positive; otherwise it
    keeps the fetched route's format and max-concurrency. *)
Theorem C6_update_field_precedence
    (e : Env) (c : Context) (ff : Funcfile.funcfile) (route : string)
    (headers : gmap string (list string)) :
  (2 ≤ length (Args c))%nat →
  loadFuncfile e = (Some ff, None) →
  route = (if decide (argsGet c 1 = "")
           then default (argsGet c 1) (Funcfile.path ff) else argsGet c 1) →
  route ≠ "" →
  parseHeaders (flagHeaders c) ∅ = Val headers →
  ∃ delta,
    updateDelta e c = Val (argsGet c 0, route, delta) ∧
    overwrittenWhen (flagFormat c ≠ "") (flagFormat c)
      (default "" (Funcfile.Format ff)) (Format delta) ∧
    overwrittenWhen (0 < flagMaxConcurrency c)%Z
      (int32 (flagMaxConcurrency c))
      (int32 (default 0%Z (Funcfile.maxConcurrency ff)))
      (MaxConcurrency delta) ∧
    overwrittenWhen (0 < flagTimeout c)%Z
      (Some (durationSeconds (flagTimeout c)))
      (Some (durationSeconds (default 0%Z (Funcfile.Timeout ff))))
      (Timeout delta) ∧
    ∀ (a : routesCmd) (o : Order) (resp : Route) (app' path' : string)
      (body : Route),
      GetAppsAppRoutesRoute (client a) (argsGet c 0) route = GetOK resp →
      CallPatch app' path' body ∈ (update a e o c).2 →
      overwrittenWhen (Format delta ≠ "") (Format delta) (Format resp)
        (Format body) ∧
      overwrittenWhen (0 < MaxConcurrency delta)%Z (MaxConcurrency delta)
        (MaxConcurrency resp) (MaxConcurrency body) ∧
      Timeout body = Timeout delta.
Proof.
  intros Hlen Hload Hroute Hne Hparse.
  assert ((length (Args c) <? 2)%nat = false) as Hlt by (by apply Nat.ltb_ge).
  assert (∃ delta,
            updateDelta e c = Val (argsGet c 0, route, delta) ∧
            Format delta = (if decide (flagFormat c = "")
                            then default "" (Funcfile.Format ff)
                            else flagFormat c) ∧
            MaxConcurrency delta
            = int32 (if (0 <? flagMaxConcurrency c)%Z then flagMaxConcurrency c
                     else default 0%Z (Funcfile.maxConcurrency ff)) ∧
            Timeout delta
            = Some (durationSeconds
                      (if (0 <? flagTimeout c)%Z then flagTimeout c
                       else default 0%Z (Funcfile.Timeout ff))))
    as (delta & Hdelta & HF & HM & HT).
  { unfold updateDelta. rewrite Hlt, Hload. simpl. rewrite <- Hroute.
    destruct (decide (route = "")); [done|]. rewrite Hparse. simpl.
    eexists. split; [reflexivity|]. simpl. done. }
  exists delta. split; [done|].
  split; [|split; [|split]].
  - rewrite HF. unfold overwrittenWhen.
    destruct (decide (flagFormat c = "")); split; intros; done.
  - rewrite HM. unfold overwrittenWhen.
    destruct (0 <? flagMaxConcurrency c)%Z eqn:E;
      [apply Z.ltb_lt in E|apply Z.ltb_ge in E]; split; intros; done || lia.
  - rewrite HT. unfold overwrittenWhen.
    destruct (0 <? flagTimeout c)%Z eqn:E;
      [apply Z.ltb_lt in E|apply Z.ltb_ge in E]; split; intros; done || lia.
  - intros a o resp app' path' body Hget Hin.
    unfold update in Hin. rewrite Hdelta in Hin.
    apply patchRoute_trace_elem in Hin
      as [|(resp' & body' & [= _ _ <-] & Hget' & Hrun)]; [done|].
    rewrite Hget in Hget'. simplify_eq.
    unfold applyDelta in Hrun.
    destruct (mergeMaps o (normalize resp') delta) as [route'| |] eqn:Hm;
      simpl in Hrun; [|done..]. simplify_eq.
    apply mergeMaps_fields in Hm as (_ & _ & _ & _ & HF' & HM' & _ & _ & _).
    destruct (normalize_scalars resp') as (_ & _ & _ & HFn & HMn & _).
    destruct (overwriteScalars_scalars route' delta)
      as (_ & -> & _ & -> & _ & ->).
    rewrite HF', HM', HFn, HMn, HT. unfold overwrittenWhen.
    split; [|split; [|done]].
    + destruct (decide (Format delta = "")); split; intros; done.
    + destruct (0 <? MaxConcurrency delta)%Z eqn:E;
        [apply Z.ltb_lt in E|apply Z.ltb_ge in E]; split; intros; done || lia.
Qed.

Lemma C6_update_field_precedence_witness :
  ∃ delta,
    updateDelta (Sample.env (Some Sample.tuned, None)) Sample.updateAllFlags
    = Val ("app", "/hello", delta) ∧
    Format delta = "json" ∧ MaxConcurrency delta = 8%Z ∧
    Timeout delta = Some 45%Z ∧
    ∀ body,
      CallPatch "app" "/hello" body
      ∈ (update (Sample.stub (GetOK Sample.fetched) PatchOK)
           (Sample.env (Some Sample.tuned, None)) mapOrder
           Sample.updateAllFlags).2 →
      Format body = "json" ∧ MaxConcurrency body = 8%Z ∧
      Timeout body = Some 45%Z.
Proof.
  destruct (C6_update_field_precedence
              (Sample.env (Some Sample.tuned, None)) Sample.updateAllFlags
              Sample.tuned "/hello" ∅)
    as (delta & Hrun & [Hf _] & [Hm _] & [Ht _] & Hbody).
  - simpl. lia.
  - reflexivity.
  - reflexivity.
  - discriminate.
  - reflexivity.
  - assert (Format delta = "json") as HF by (apply Hf; discriminate).
    assert (MaxConcurrency delta = 8%Z) as HM
      by (rewrite Hm; [reflexivity|simpl; lia]).
    assert (Timeout delta = Some 45%Z) as HT
      by (rewrite Ht; [vm_compute; reflexivity|vm_compute; reflexivity]).
    exists delta. split; [exact Hrun|]. split; [exact HF|].
    split; [exact HM|]. split; [exact HT|].
    intros body Hin.
    destruct (Hbody (Sample.stub (GetOK Sample.fetched) PatchOK) mapOrder
                Sample.fetched "app" "/hello" body eq_refl Hin)
      as ([Hbf _] & [Hbm _] & Hbt).
    split; [|split].
    + rewrite Hbf; [exact HF|]. rewrite HF. discriminate.
    + rewrite Hbm; [exact HM|]. rewrite HM. lia.
    + by rewrite Hbt.
Defined.
